(** * DBS help-centre chatbot: extraction, chunking and context assembly

    A shallow embedding of the text-processing code of the repository:
    - [dbs_scraper.py]: [clean_text], [extract_page_content];
    - [dbs_ingest.py]: [chunk_by_sentences],
      [create_langchain_docs_from_article];
    - [dbs_chatbot_st.py]: [format_docs].

    Python strings are lists of characters.  Characters are the code
    points below 256; [isspace] is Python's notion of white space on that
    range, which is shared by [str.strip], [str.isspace] and the regular
    expression class [\s].  Python integers are [Z]; the length of a
    string enters arithmetic through [len]. *)

From Stdlib Require Import ZArith List Ascii String Bool Lia.
From stdpp Require Import base gmap strings.
Import ListNotations.

Local Open Scope Z_scope.

Abbreviation str := (list ascii).

(** ** Python string primitives *)

Module Text.

(** A string literal of the source. *)
Definition lit (s : string) : str := list_ascii_of_string s.

(** The line feed written [\n] in the source. *)
Definition nl : ascii := "010"%char.

Definition sp : ascii := " "%char.

(** [len(s)] *)
Definition len (s : str) : Z := Z.of_nat (length s).

(** Truth value of a string: [if s:] holds for the non-empty ones. *)
Definition truthy (s : str) : bool :=
  match s with
  | [] => false
  | _ :: _ => true
  end.

(** White space: TAB, LF, VT, FF, CR, FS, GS, RS, US, SPACE, NEL, NBSP. *)
Definition isspace (c : ascii) : bool :=
  let n := N_of_ascii c in
  ((9 <=? n) && (n <=? 13) || (28 <=? n) && (n <=? 32)
   || (n =? 133) || (n =? 160))%N.

(** [s.lstrip()] *)
Fixpoint lstrip (s : str) : str :=
  match s with
  | [] => []
  | c :: t => if isspace c then lstrip t else s
  end.

(** [s.rstrip()] *)
Fixpoint rstrip (s : str) : str :=
  match s with
  | [] => []
  | c :: t =>
      match rstrip t with
      | [] => if isspace c then [] else [c]
      | r => c :: r
      end
  end.

(** [s.strip()] *)
Definition strip (s : str) : str := lstrip (rstrip s).

(** [re.sub(r"\s+", " ", text)]: every maximal run of white space becomes
    one space.  [in_run] says that the previous character was white. *)
Fixpoint sub_ws (in_run : bool) (text : str) : str :=
  match text with
  | [] => []
  | c :: t =>
      if isspace c
      then (if in_run then sub_ws true t else sp :: sub_ws true t)
      else c :: sub_ws false t
  end.

Definition re_sub_ws (text : str) : str := sub_ws false text.

(** [clean_text], the same in [dbs_scraper.py] and [dbs_ingest.py]. *)
Definition clean_text (text : str) : str := strip (re_sub_ws text).

(** The class [[.!?]] of the look-behind in the sentence splitter. *)
Definition is_terminator (c : ascii) : bool :=
  (Ascii.eqb c "." || Ascii.eqb c "!" || Ascii.eqb c "?")%char.

(** Scanner state of [re.split(r"(?<=[.!?])\s+", text)]: inside a piece,
    remembering whether the previous character is a terminator, or inside
    a separator (a run of white space that started after a terminator). *)
Inductive scan : Type :=
  | Body (after_terminator : bool)
  | Gap.

(** [piece] holds the characters of the current piece, latest first. *)
Fixpoint split_go (st : scan) (piece : str) (text : str) : list str :=
  match text with
  | [] => [rev piece]
  | c :: t =>
      match st with
      | Gap =>
          if isspace c then split_go Gap [] t
          else split_go (Body (is_terminator c)) [c] t
      | Body after =>
          if after && isspace c then rev piece :: split_go Gap [] t
          else split_go (Body (is_terminator c)) (c :: piece) t
      end
  end.

(** [re.split(r"(?<=[.!?])\s+", text)] *)
Definition re_split_sentences (text : str) : list str :=
  split_go (Body false) [] text.

(** [s[i:]] for any integer [i]: a negative index counts from the end,
    and both ends are clamped. *)
Definition py_slice_from (i : Z) (s : str) : str :=
  let n := len s in
  let start := if i <? 0 then Z.max (n + i) 0 else Z.min i n in
  drop (Z.to_nat start) s.

(** [s[:j]] for any integer [j]. *)
Definition py_slice_to (j : Z) (s : str) : str :=
  let n := len s in
  let stop := if j <? 0 then Z.max (n + j) 0 else Z.min j n in
  take (Z.to_nat stop) s.

(** [s.startswith(p)] *)
Fixpoint startswith (p s : str) : bool :=
  match p, s with
  | [], _ => true
  | _ :: _, [] => false
  | a :: p', b :: s' => Ascii.eqb a b && startswith p' s'
  end.

(** [s.endswith(c)] for a one-character suffix. *)
Fixpoint endswith_char (c : ascii) (s : str) : bool :=
  match s with
  | [] => false
  | [a] => Ascii.eqb a c
  | _ :: t => endswith_char c t
  end.

(** [s.replace(old, new)] for a non-empty [old]: occurrences are taken from
    left to right and do not overlap.  [skip] counts the characters of the
    occurrence just replaced that are still to be passed over. *)
Fixpoint replace_go (old new : str) (skip : nat) (s : str) : str :=
  match s with
  | [] => []
  | c :: t =>
      match skip with
      | S k => replace_go old new k t
      | O =>
          if startswith old s
          then new ++ replace_go old new (length old - 1) t
          else c :: replace_go old new 0 t
      end
  end.

Definition replace (old new s : str) : str := replace_go old new 0 s.

(** [sep.join(parts)] *)
Fixpoint join (sep : str) (parts : list str) : str :=
  match parts with
  | [] => []
  | [x] => x
  | x :: rest => x ++ sep ++ join sep rest
  end.

(** The property the data model asks of stored text: no two white-space
    characters in a row, none at either end. *)
Fixpoint no_ws_run (s : str) : bool :=
  match s with
  | [] => true
  | c :: t =>
      match t with
      | [] => true
      | d :: _ => negb (isspace c && isspace d) && no_ws_run t
      end
  end.

Definition no_leading_ws (s : str) : bool :=
  match s with
  | [] => true
  | c :: _ => negb (isspace c)
  end.

Fixpoint no_trailing_ws (s : str) : bool :=
  match s with
  | [] => true
  | c :: t =>
      match t with
      | [] => negb (isspace c)
      | _ :: _ => no_trailing_ws t
      end
  end.

Definition ws_normalized (s : str) : bool :=
  no_ws_run s && no_leading_ws s && no_trailing_ws s.

End Text.

Import Text.

(** ** The chunker of [dbs_ingest.py] *)

Module Ingest.

(** Chunking parameters. *)
Definition MAX_CHUNK_SIZE : Z := 1000.
Definition CHUNK_OVERLAP : Z := 150.
Definition MIN_CHUNK_SIZE : Z := 50.

(** The body of the loop of [chunk_by_sentences]; the state is the pair of
    the two variables [chunks] and [current_chunk]. *)
Definition sentence_step (max_size overlap : Z)
    (st : list str * str) (sentence : str) : list str * str :=
  let '(chunks, current_chunk) := st in
  let sentence := strip sentence in
  if negb (truthy sentence) then (chunks, current_chunk)
  else if (len current_chunk + len sentence >? max_size)
          && truthy current_chunk
  then
    let chunks := chunks ++ [strip current_chunk] in
    let overlap_text :=
      if len current_chunk >? overlap
      then py_slice_from (- overlap) current_chunk
      else current_chunk in
    (chunks, overlap_text ++ [sp] ++ sentence)
  else (chunks, strip (current_chunk ++ [sp] ++ sentence)).

(** The list [chunks] before the final filter. *)
Definition sentence_chunks (text : str) (max_size overlap : Z) : list str :=
  let sentences := re_split_sentences text in
  let '(chunks, current_chunk) :=
    fold_left (sentence_step max_size overlap) sentences ([], []) in
  if truthy (strip current_chunk)
  then chunks ++ [strip current_chunk]
  else chunks.

Definition chunk_by_sentences (text : str) (max_size overlap : Z)
    : list str :=
  List.filter (fun c => len c >=? MIN_CHUNK_SIZE)
    (sentence_chunks text max_size overlap).

(** One entry of [faq_pairs] and of [sections]. *)
Record FaqPair : Type := { question : str; answer : str }.
Record SectionEntry : Type := { heading : str; content : str }.

(** A scraped article, as [extract_page_content] returns it and the
    knowledge-base file stores it.  Every key is present in such a
    record, so that [article.get(key, default)] is the stored value. *)
Record Article : Type := {
  url : str;
  title : str;
  category : str;
  full_text : str;
  steps : list str;
  faq_pairs : list FaqPair;
  sections : list SectionEntry;
  notes : list str;
  scraped_at : str
}.

(** A LangChain [Document]: the text and a dictionary of metadata. *)
Record Document : Type := {
  page_content : str;
  metadata : gmap string str
}.

(** A dictionary display [{k1: v1, ...}]. *)
Definition dict (items : list (string * str)) : gmap string str :=
  list_to_map items.

(** [d.get(key, "")] *)
Definition get (d : gmap string str) (key : string) : str :=
  default [] (d !! key).

Section Chunker.

Variable article : Article.

Definition context_prefix : str :=
  lit "[" ++ category article ++ lit "] " ++ title article ++ [nl].

(** The metadata every chunk carries, with its [chunk_type] and the
    fields proper to that type. *)
Definition faq_metadata (q : str) : gmap string str :=
  dict [("url", url article); ("title", title article);
        ("category", category article); ("chunk_type", lit "faq");
        ("question", q); ("source", url article)]%string.

Definition plain_metadata (chunk_type : string) : gmap string str :=
  dict [("url", url article); ("title", title article);
        ("category", category article); ("chunk_type", lit chunk_type);
        ("source", url article)]%string.

Definition section_metadata (h : str) : gmap string str :=
  dict [("url", url article); ("title", title article);
        ("category", category article); ("chunk_type", lit "section");
        ("section_heading", h); ("source", url article)]%string.

(** 1. FAQ pairs. *)
Definition faq_doc (q a : str) : Document :=
  {| page_content :=
       context_prefix ++ lit "Q: " ++ q ++ [nl] ++ lit "A: " ++ a;
     metadata := faq_metadata q |}.

Definition faq_step (docs : list Document) (faq : FaqPair) : list Document :=
  let q := strip (question faq) in
  let a := strip (answer faq) in
  if truthy q && truthy a then docs ++ [faq_doc q a] else docs.

Definition faq_docs (docs : list Document) : list Document :=
  fold_left faq_step (faq_pairs article) docs.

(** 2. Step-by-step instructions; the loop state is [(docs, step_group)]. *)
Definition steps_doc (step_group : str) : Document :=
  {| page_content := strip step_group;
     metadata := plain_metadata "steps" |}.

Definition steps_step (st : list Document * str) (step : str)
    : list Document * str :=
  let '(docs, step_group) := st in
  let '(docs, step_group) :=
    if (len step_group + len step >? MAX_CHUNK_SIZE)
       && (len step_group >? len context_prefix + 30)
    then (docs ++ [steps_doc step_group],
          context_prefix ++ lit "How to (continued):" ++ [nl])
    else (docs, step_group) in
  (docs, step_group ++ step ++ [nl]).

Definition steps_docs (docs : list Document) : list Document :=
  match steps article with
  | [] => docs
  | _ :: _ =>
      let step_group := context_prefix ++ lit "How to (step-by-step):" ++ [nl] in
      let '(docs, step_group) :=
        fold_left steps_step (steps article) (docs, step_group) in
      if len (strip step_group) >? len context_prefix + 30
      then docs ++ [steps_doc step_group]
      else docs
  end.

(** 3. Sections. *)
Definition section_doc (h : str) (body : str) : Document :=
  {| page_content := context_prefix ++ h ++ [nl] ++ body;
     metadata := section_metadata h |}.

Definition section_step (docs : list Document) (section : SectionEntry)
    : list Document :=
  let heading := heading section in
  let content := content section in
  if negb (truthy content) then docs
  else
    let section_text := context_prefix ++ heading ++ [nl] ++ content in
    if len section_text <=? MAX_CHUNK_SIZE
    then docs ++ [section_doc heading content]
    else
      fold_left (fun docs sc => docs ++ [section_doc heading sc])
        (chunk_by_sentences content MAX_CHUNK_SIZE CHUNK_OVERLAP) docs.

Definition section_docs (docs : list Document) : list Document :=
  fold_left section_step (sections article) docs.

(** 4. Full-text fallback. *)
Definition text_doc (tc : str) : Document :=
  {| page_content := context_prefix ++ tc;
     metadata := plain_metadata "text" |}.

Definition fallback_docs (docs : list Document) : list Document :=
  match docs with
  | [] =>
      if truthy (full_text article)
      then fold_left (fun docs tc => docs ++ [text_doc tc])
             (chunk_by_sentences (full_text article)
                MAX_CHUNK_SIZE CHUNK_OVERLAP) docs
      else docs
  | _ :: _ => docs
  end.

(** 5. Notes. *)
Definition note_doc (note : str) : Document :=
  {| page_content := context_prefix ++ lit "Important: " ++ note;
     metadata := plain_metadata "note" |}.

Definition note_step (docs : list Document) (note : str) : list Document :=
  if len note >=? MIN_CHUNK_SIZE then docs ++ [note_doc note] else docs.

Definition note_docs (docs : list Document) : list Document :=
  fold_left note_step (notes article) docs.

(** The value of [docs] when strategies 1 to 3 are done. *)
Definition structured_docs : list Document :=
  section_docs (steps_docs (faq_docs [])).

Definition create_langchain_docs_from_article : list Document :=
  note_docs (fallback_docs structured_docs).

End Chunker.

End Ingest.

Import Ingest.

(** ** The structural extractor of [dbs_scraper.py] *)

Module Scraper.

(** An element met on a sibling walk: its tag name and its [get_text()]. *)
Record Sibling : Type := { name : string; text : str }.

(** What the BeautifulSoup queries of [extract_page_content] return on a
    page.  The parser and its tree are a library outside the repository;
    the extractor sees the page only through these answers, each in
    document order:
    - [h1_text], [title_text]: the text of [soup.find("h1")] and of
      [soup.find("title")], when there is such an element;
    - [step_texts]: for each string matching [^Step \d+], the text of its
      parent;
    - [strong_elements]: for each [strong], [b], [h3] or [h4] element, its
      text and the elements reached by [find_next_sibling] from its
      parent;
    - [heading_elements]: for each [h2] or [h3] element, its text and its
      following siblings;
    - [main_text]: the text of the main content region once the [nav],
      [footer], [header], [script], [style] and [noscript] subtrees are
      removed, when a region is found;
    - [note_texts]: the text of each element with a note-like class. *)
Record Soup : Type := {
  h1_text : option str;
  title_text : option str;
  step_texts : list str;
  strong_elements : list (str * list Sibling);
  heading_elements : list (str * list Sibling);
  main_text : option str;
  note_texts : list str
}.

(** [sibling.name in names] *)
Definition name_in (names : list string) (sibling : Sibling) : bool :=
  existsb (String.eqb (name sibling)) names.

Definition extract_title (soup : Soup) : str :=
  match h1_text soup with
  | Some t => clean_text t
  | None =>
      match title_text soup with
      | Some t => replace (lit " | DBS Singapore") [] (clean_text t)
      | None => []
      end
  end.

Definition extract_steps (soup : Soup) : list str :=
  fold_left
    (fun steps raw =>
       let step_text := clean_text raw in
       if truthy step_text && (len step_text >? 5)
       then steps ++ [step_text] else steps)
    (step_texts soup) [].

(** A candidate question, also the test that stops an answer. *)
Definition question_like (t : str) : bool :=
  endswith_char "?" t && (len t >? 10).

(** The [while] loop that collects the answer of a question. *)
Fixpoint answer_walk (answer_parts : list str) (siblings : list Sibling)
    : list str :=
  match siblings with
  | [] => answer_parts
  | sibling :: rest =>
      if name_in ["h1"; "h2"; "h3"; "h4"]%string sibling then answer_parts
      else
        let sib_text := clean_text (text sibling) in
        if negb (truthy sib_text) then answer_parts
        else if question_like sib_text then answer_parts
        else
          let answer_parts := answer_parts ++ [sib_text] in
          if Z.of_nat (length answer_parts) >=? 5 then answer_parts
          else answer_walk answer_parts rest
  end.

Definition extract_faq_pairs (soup : Soup) : list FaqPair :=
  fold_left
    (fun faq_pairs (el : str * list Sibling) =>
       let text := clean_text (fst el) in
       if question_like text
       then
         match answer_walk [] (snd el) with
         | [] => faq_pairs
         | answer_parts =>
             faq_pairs ++ [ {| question := text;
                               answer := join [sp] answer_parts |} ]
         end
       else faq_pairs)
    (strong_elements soup) [].

(** The [while] loop that collects the content of a section. *)
Fixpoint content_walk (content_parts : list str) (siblings : list Sibling)
    : list str :=
  match siblings with
  | [] => content_parts
  | sibling :: rest =>
      if name_in ["h2"; "h3"]%string sibling then content_parts
      else
        let text := clean_text (text sibling) in
        if truthy text && (len text >? 3)
        then content_walk (content_parts ++ [text]) rest
        else content_walk content_parts rest
  end.

Definition boilerplate_headings : list str :=
  [lit "Popular Articles"; lit "Popular Guides"; lit "Popular Article"].

Definition extract_sections (soup : Soup) : list SectionEntry :=
  fold_left
    (fun sections (el : str * list Sibling) =>
       let heading_text := clean_text (fst el) in
       if negb (truthy heading_text)
          || bool_decide (heading_text ∈ boilerplate_headings)
       then sections
       else
         match content_walk [] (snd el) with
         | [] => sections
         | content_parts =>
             sections ++ [ {| heading := heading_text;
                              content := join [sp] content_parts |} ]
         end)
    (heading_elements soup) [].

Definition extract_full_text (soup : Soup) : str :=
  match main_text soup with
  | Some t => clean_text t
  | None => []
  end.

Definition extract_notes (soup : Soup) : list str :=
  fold_left
    (fun notes raw =>
       let note_text := clean_text raw in
       if truthy note_text && (len note_text >? 10)
       then notes ++ [note_text] else notes)
    (note_texts soup) [].

(** [now] is the value of [datetime.now().isoformat()]. *)
Definition extract_page_content (soup : Soup) (url category now : str)
    : Article :=
  {| Ingest.url := url;
     title := extract_title soup;
     Ingest.category := category;
     full_text := py_slice_to 15000 (extract_full_text soup);
     steps := extract_steps soup;
     faq_pairs := extract_faq_pairs soup;
     sections := extract_sections soup;
     notes := extract_notes soup;
     scraped_at := now |}.

(** The text fields the extractor computes, other than [full_text]. *)
Definition structured_fields (a : Article) : list str :=
  title a :: steps a
  ++ flat_map (fun p => [question p; answer p]) (faq_pairs a)
  ++ flat_map (fun s => [heading s; content s]) (sections a)
  ++ notes a.

End Scraper.

Import Scraper.

(** ** Context assembly of [dbs_chatbot_st.py] *)

Module Chatbot.

Definition separator : str := [nl; nl] ++ lit "---" ++ [nl; nl].

Definition format_docs (docs : list Document) : str :=
  let formatted :=
    fold_left
      (fun formatted doc =>
         let source := get (metadata doc) "url" in
         let title := get (metadata doc) "title" in
         formatted ++ [lit "[Source: " ++ title ++ lit "]" ++ [nl]
                       ++ page_content doc ++ [nl]
                       ++ lit "(URL: " ++ source ++ lit ")"])
      docs [] in
  join separator formatted.

End Chatbot.

Import Chatbot.

(** ** The algorithms as the specification words them *)

Module Spec.

(** The type tag of a chunk: the value under the key "chunk_type" of its
    metadata. *)
Definition chunk_type (d : Document) : option str :=
  metadata d !! "chunk_type"%string.

Definition has_type (t : string) (d : Document) : bool :=
  bool_decide (chunk_type d = Some (lit t)).

(** The sentence units of a text: the pieces of the split, trimmed, the
    empty ones left out. *)
Definition sentence_units (text : str) : list str :=
  List.filter truthy (map strip (re_split_sentences text)).

(** The trailing [k] characters of [buffer], the whole of it when it has
    no more than [k]. *)
Definition trailing (k : nat) (buffer : str) : str :=
  drop (length buffer - k) buffer.

(** Sentence packing, section 4.3, with the test of the code: a non-empty
    buffer is closed when its length plus the length of the sentence is
    above [max_size]; the next buffer is the trailing [overlap] characters
    of the closed one, a space, and the sentence.  Otherwise the sentence
    is joined to the buffer with a space and the result trimmed.  A closed
    buffer is emitted trimmed. *)
Fixpoint pack (max_size : Z) (overlap : nat) (buffer : str)
    (sentences : list str) : list str :=
  match sentences with
  | [] => if truthy (strip buffer) then [strip buffer] else []
  | s :: rest =>
      if truthy buffer && (len buffer + len s >? max_size)
      then strip buffer
             :: pack max_size overlap (trailing overlap buffer ++ [sp] ++ s) rest
      else pack max_size overlap (strip (buffer ++ [sp] ++ s)) rest
  end.

(** The size a chunk of the packing keeps to: [max_size] and the joining
    space, or else a sentence unit preceded by overlap text and a space. *)
Definition chunk_fits (max_size overlap : Z) (units : list str) (c : str)
    : Prop :=
  len c <= max_size + 1
  \/ exists s x, In s units /\ c = x ++ s /\ len c <= overlap + 1 + len s.

(** Step grouping, section 4.2 item 2, with the tests of the code: before
    a step is appended the buffer is flushed when its length plus the
    length of the step is above 1000 and its length is more than 30 above
    that of the context prefix; at the end the trimmed buffer is flushed
    when its length is more than 30 above that of the context prefix.
    The result is the list of flushed buffers. *)
Fixpoint group_steps (prefix : str) (buffer : str) (steps : list str)
    : list str :=
  match steps with
  | [] => if len (strip buffer) >? len prefix + 30 then [buffer] else []
  | step :: rest =>
      if (len buffer + len step >? 1000) && (len buffer >? len prefix + 30)
      then buffer
             :: group_steps prefix
                  (prefix ++ lit "How to (continued):" ++ [nl] ++ step ++ [nl])
                  rest
      else group_steps prefix (buffer ++ step ++ [nl]) rest
  end.

(** A string of white space only, the empty one included. *)
Definition blank (s : str) : bool := forallb isspace s.

(** The chunks each strategy contributes, item by item. *)
Section Items.

Variable article : Article.

Definition faq_items (faq : FaqPair) : list Document :=
  if blank (question faq) || blank (answer faq) then []
  else [faq_doc article (strip (question faq)) (strip (answer faq))].

Definition steps_items : list Document :=
  match steps article with
  | [] => []
  | _ :: _ =>
      map (steps_doc article)
        (group_steps (context_prefix article)
           (context_prefix article ++ lit "How to (step-by-step):" ++ [nl])
           (steps article))
  end.

Definition section_items (section : SectionEntry) : list Document :=
  if negb (truthy (content section)) then []
  else if len (context_prefix article ++ heading section ++ [nl]
               ++ content section) <=? MAX_CHUNK_SIZE
  then [section_doc article (heading section) (content section)]
  else map (section_doc article (heading section))
         (chunk_by_sentences (content section) MAX_CHUNK_SIZE CHUNK_OVERLAP).

Definition text_items : list Document :=
  map (text_doc article)
    (chunk_by_sentences (full_text article) MAX_CHUNK_SIZE CHUNK_OVERLAP).

(** The fallback chunks: none unless strategies 1 to 3 left [docs]
    empty. *)
Definition fallback_items : list Document :=
  match structured_docs article with
  | [] => text_items
  | _ :: _ => []
  end.

Definition note_items (note : str) : list Document :=
  if len note >=? MIN_CHUNK_SIZE then [note_doc article note] else [].

End Items.

End Spec.

Import Spec.

(** Normalised text, and a piece fit to be joined with spaces: normalised
    and not empty. *)
Abbreviation normal := (fun s : str => ws_normalized s = true).
Abbreviation normal_part :=
  (fun p : str => ws_normalized p = true /\ p <> []).

(** ** Sample inputs *)

Module Samples.

(** A sentence of [n + 1] characters. *)
Definition sentence (n : nat) : str := repeat "a"%char n ++ lit ".".

(** Three sentences of 900 characters. *)
Definition three_long_sentences : str :=
  sentence 899 ++ [sp] ++ sentence 899 ++ [sp] ++ sentence 899.

(** Two sentences of 30 characters. *)
Definition two_short_sentences : str := sentence 29 ++ [sp] ++ sentence 29.

Definition blank_article : Article :=
  {| url := lit "https://www.dbs.com.sg/personal/support/home.html";
     title := lit "Help";
     category := lit "General";
     full_text := [];
     steps := [];
     faq_pairs := [];
     sections := [];
     notes := [];
     scraped_at := lit "2024-01-01T00:00:00" |}.

(** The scenario of section 8: one FAQ pair, nothing else. *)
Definition paynow_article : Article :=
  {| url := lit "https://www.dbs.com.sg/personal/support/bank-paynow.html";
     title := lit "PayNow FAQ";
     category := lit "Banking - PayNow";
     full_text := lit "What is PayNow? PayNow is a funds transfer service.";
     steps := [];
     faq_pairs := [ {| question := lit "What is PayNow?";
                       answer := lit "PayNow is a funds transfer service." |} ];
     sections := [];
     notes := [lit "Fees may apply."];
     scraped_at := lit "2024-01-01T00:00:00" |}.

(** No structure, and a full text of 30 characters. *)
Definition short_text_article : Article :=
  {| url := url blank_article;
     title := title blank_article;
     category := category blank_article;
     full_text := sentence 29;
     steps := [];
     faq_pairs := [];
     sections := [];
     notes := [];
     scraped_at := scraped_at blank_article |}.

(** No structure, and a full text of 60 characters. *)
Definition plain_text_article : Article :=
  {| url := url blank_article;
     title := title blank_article;
     category := category blank_article;
     full_text := sentence 59;
     steps := [];
     faq_pairs := [];
     sections := [];
     notes := [];
     scraped_at := scraped_at blank_article |}.

(** Two steps of 600 characters. *)
Definition two_long_steps_article : Article :=
  {| url := url blank_article;
     title := title blank_article;
     category := category blank_article;
     full_text := [];
     steps := [sentence 599; sentence 599];
     faq_pairs := [];
     sections := [];
     notes := [];
     scraped_at := scraped_at blank_article |}.

(** A page whose main region holds 14999 letters, a space and a letter. *)
Definition long_page : Soup :=
  {| h1_text := Some (lit "Help");
     title_text := None;
     step_texts := [];
     strong_elements := [];
     heading_elements := [];
     main_text := Some (repeat "a"%char (Z.to_nat 14999) ++ lit " b");
     note_texts := [] |}.

(** A page with a title element, a question and a section. *)
Definition small_page : Soup :=
  {| h1_text := None;
     title_text := Some (lit "  PayNow   FAQ | DBS Singapore ");
     step_texts := [lit "Step 1:   Log in to digibank. "];
     strong_elements :=
       [(lit "What  is PayNow? ",
         [ {| name := "p"; text := lit " PayNow is a  funds transfer service. " |};
           {| name := "h2"; text := lit "More" |} ])];
     heading_elements :=
       [(lit " About  PayNow ",
         [ {| name := "p"; text := lit "PayNow lets you   send money. " |} ])];
     main_text := Some (lit " PayNow   is a funds transfer service. ");
     note_texts := [lit "Note:  fees may apply. "] |}.

End Samples.

Import Samples.

(** ** Shapes of text used in further properties *)

Module Shape.

(** Every white-space character of [s] is the plain space. *)
Definition only_plain_spaces (s : str) : bool :=
  forallb (fun c => negb (isspace c) || Ascii.eqb c sp) s.

(** The characters of [s] that are not white space, in order. *)
Definition ink (s : str) : str := List.filter (fun c => negb (isspace c)) s.

(** [s] ends with one of the characters [.], [!], [?]. *)
Fixpoint ends_with_terminator (s : str) : bool :=
  match s with
  | [] => false
  | c :: t =>
      match t with
      | [] => is_terminator c
      | _ :: _ => ends_with_terminator t
      end
  end.

(** [s] occurs in [c] as a run of consecutive characters. *)
Definition occurs_in (s c : str) : Prop := exists x y, c = x ++ s ++ y.

End Shape.

Import Shape.

(** ** The batch drivers: [ingest] and [scrape_all] *)

Module Pipeline.

(** [d[k] = d.get(k, 0) + 1] *)
Definition incr (d : gmap str Z) (k : str) : gmap str Z :=
  <[k := default 0 (d !! k) + 1]> d.

(** [ingest], step 2: [all_docs.extend(...)] over the articles. *)
Definition all_docs (articles : list Article) : list Document :=
  fold_left
    (fun all_docs article =>
       all_docs ++ create_langchain_docs_from_article article)
    articles [].

(** [d.metadata.get("chunk_type", "unknown")] *)
Definition chunk_type_or_unknown (d : Document) : str :=
  default (lit "unknown") (metadata d !! "chunk_type"%string).

(** [ingest], the chunk type distribution. *)
Definition type_counts (all_docs : list Document) : gmap str Z :=
  fold_left (fun type_counts d => incr type_counts (chunk_type_or_unknown d))
    all_docs ∅.

Definition BASE_URL : str := lit "https://www.dbs.com.sg/personal/support/".

(** [key in d] for a dictionary kept as the list of its items, in
    insertion order. *)
Definition has_key (d : list (str * str)) (key : str) : bool :=
  existsb (fun item => bool_decide (fst item = key)) d.

(** The body of the inner loop that fills [all_urls]. *)
Definition add_url (category : str) (all_urls : list (str * str))
    (url_path : str) : list (str * str) :=
  let full_url := BASE_URL ++ url_path in
  if negb (has_key all_urls full_url)
  then all_urls ++ [(full_url, category)]
  else all_urls.

(** [scrape_all], the URLs to visit; [articles] is [ARTICLES.items()]. *)
Definition all_urls (articles : list (str * list str)) : list (str * str) :=
  fold_left
    (fun all_urls (entry : str * list str) =>
       fold_left (add_url (fst entry)) (snd entry) all_urls)
    articles [].

(** What one request gives: [session.get] or [raise_for_status] raises a
    [RequestException], or there is a response, seen through its
    [Content-Type] header (the empty string when absent), the parsed
    page, and the clock read when the page is extracted.  An exception of
    another kind is not caught by the loop and ends the run; such runs
    are outside this model.  The pause between requests has no effect on
    the data. *)
Inductive Fetched : Type :=
  | RequestError (error : str)
  | Response (content_type : str) (soup : Soup) (now : str).

(** [needle in haystack] *)
Fixpoint contains (needle haystack : str) : bool :=
  startswith needle haystack
  || match haystack with
     | [] => false
     | _ :: t => contains needle t
     end.

(** An item of [failed]. *)
Record Failure : Type := {
  failed_url : str;
  failed_category : str;
  failed_error : str
}.

(** The body of the scraping loop; the state is [(results, failed)]. *)
Definition scrape_step (fetch : str -> Fetched)
    (st : list Article * list Failure) (item : str * str)
    : list Article * list Failure :=
  let '(results, failed) := st in
  let '(url, category) := item in
  match fetch url with
  | Response content_type soup now =>
      if negb (contains (lit "text/html") content_type)
      then (results, failed)
      else (results ++ [extract_page_content soup url category now], failed)
  | RequestError e =>
      (results,
       failed ++ [ {| failed_url := url; failed_category := category;
                      failed_error := e |} ])
  end.

(** [scrape_all] up to the saving of the results: [results] and
    [failed]. *)
Definition scrape (fetch : str -> Fetched) (articles : list (str * list str))
    : list Article * list Failure :=
  fold_left (scrape_step fetch) (all_urls articles) ([], []).

(** The summary written to the statistics file. *)
Record Stats : Type := {
  total_articles : Z;
  failed_count : Z;
  categories : gmap str Z;
  stats_scraped_at : str
}.

Definition scrape_stats (results : list Article) (failed : list Failure)
    (now : str) : Stats :=
  {| total_articles := Z.of_nat (length results);
     failed_count := Z.of_nat (length failed);
     categories := fold_left (fun c r => incr c (category r)) results ∅;
     stats_scraped_at := now |}.

(** The URLs of [all_urls] whose request gives something else than an
    HTML page or an error: the loop skips them. *)
Definition skipped (fetch : str -> Fetched) (urls : list (str * str))
    : list str :=
  flat_map
    (fun item : str * str =>
       match fetch (fst item) with
       | Response content_type _ _ =>
           if contains (lit "text/html") content_type then [] else [fst item]
       | RequestError _ => []
       end)
    urls.

(** What one turn of the scraping loop adds to [results] and to
    [failed]. *)
Definition scraped_page (fetch : str -> Fetched) (item : str * str)
    : list Article :=
  match fetch (fst item) with
  | Response content_type soup now =>
      if contains (lit "text/html") content_type
      then [extract_page_content soup (fst item) (snd item) now]
      else []
  | RequestError _ => []
  end.

Definition scrape_failure (fetch : str -> Fetched) (item : str * str)
    : list Failure :=
  match fetch (fst item) with
  | Response _ _ _ => []
  | RequestError e =>
      [ {| failed_url := fst item; failed_category := snd item;
           failed_error := e |} ]
  end.

(** The number of elements of [l] whose key is [k]. *)
Definition tally {A : Type} (key : A -> str) (k : str) (l : list A) : Z :=
  Z.of_nat (length (List.filter (fun x => bool_decide (key x = k)) l)).

End Pipeline.

Import Pipeline.

(** * Properties *)

(** ** Strings *)

Section TextFacts.

Lemma len_app (a b : str) : len (a ++ b) = len a + len b.
Proof. unfold len. rewrite length_app. lia. Qed.

Lemma len_nonneg (a : str) : 0 <= len a.
Proof. unfold len. lia. Qed.

Lemma len_cons (c : ascii) (a : str) : len (c :: a) = 1 + len a.
Proof. unfold len. simpl length. lia. Qed.

Lemma truthy_true (s : str) : truthy s = true <-> s <> [].
Proof. destruct s; simpl; split; congruence. Qed.

Lemma truthy_false (s : str) : truthy s = false <-> s = [].
Proof. destruct s; simpl; split; congruence. Qed.

Lemma truthy_app_r (a b : str) : truthy b = true -> truthy (a ++ b) = true.
Proof. destruct a, b; simpl; congruence. Qed.

Lemma lstrip_length (s : str) : (length (lstrip s) <= length s)%nat.
Proof.
  induction s as [|c t IH]; simpl; [lia|].
  destruct (isspace c); simpl; lia.
Qed.

Lemma rstrip_length (s : str) : (length (rstrip s) <= length s)%nat.
Proof.
  induction s as [|c t IH]; simpl; [lia|].
  destruct (rstrip t) as [|d r]; [destruct (isspace c)|]; simpl in *; lia.
Qed.

Lemma strip_len (s : str) : len (strip s) <= len s.
Proof.
  unfold strip, len.
  pose proof (lstrip_length (rstrip s)). pose proof (rstrip_length s). lia.
Qed.

(** Stripping on the right stops at the last character that is not
    white: whatever stands before it is kept. *)
Lemma rstrip_app (x z : str) : rstrip z <> [] -> rstrip (x ++ z) = x ++ rstrip z.
Proof.
  intros Hz. induction x as [|c x IH]; simpl; [reflexivity|].
  rewrite IH. destruct (x ++ rstrip z) eqn:E; [|reflexivity].
  apply app_eq_nil in E. tauto.
Qed.

Lemma rstrip_cons_black (c : ascii) (y : str) :
  isspace c = false -> rstrip (c :: y) = c :: rstrip y.
Proof. intros Hc. simpl. rewrite Hc. destruct (rstrip y); reflexivity. Qed.

Lemma rstrip_black_inside (x y : str) (c : ascii) :
  isspace c = false -> rstrip (x ++ c :: y) = x ++ c :: rstrip y.
Proof.
  intros Hc. rewrite rstrip_app; rewrite rstrip_cons_black by exact Hc;
    [reflexivity|discriminate].
Qed.

Lemma lstrip_black (c : ascii) (y : str) :
  isspace c = false -> lstrip (c :: y) = c :: y.
Proof. intros Hc. simpl. rewrite Hc. reflexivity. Qed.

End TextFacts.

(** ** Loops that append to a list *)

Section AppendLoops.

Context {A B : Type}.

(** A [for] loop whose body appends to the accumulator the items [f x]
    yields the accumulator followed by all the items, in order. *)
Lemma fold_left_append (f : B -> list A) (l : list B) (acc : list A) :
  fold_left (fun acc x => acc ++ f x) l acc = acc ++ flat_map f l.
Proof.
  revert acc. induction l as [|x l IH]; intros acc; simpl.
  - rewrite app_nil_r. reflexivity.
  - rewrite IH, <- app_assoc. reflexivity.
Qed.

Lemma fold_left_ext_append (g : list A -> B -> list A) (f : B -> list A)
    (l : list B) (acc : list A) :
  (forall acc x, g acc x = acc ++ f x) ->
  fold_left g l acc = acc ++ flat_map f l.
Proof.
  intros Hg. rewrite <- fold_left_append. revert acc.
  induction l as [|x l IH]; intros acc; simpl; [reflexivity|].
  rewrite Hg. apply IH.
Qed.

Lemma flat_map_singleton (f : B -> A) (l : list B) :
  flat_map (fun x => [f x]) l = map f l.
Proof. induction l as [|x l IH]; simpl; [|rewrite IH]; reflexivity. Qed.

End AppendLoops.

(** ** Sentence packing: the size floor *)

Section MinSize.

(** C7. Every chunk returned by [chunk_by_sentences] has at least
    [MIN_CHUNK_SIZE] = 50 characters: the returned chunks are exactly the
    candidate chunks of the packing loop that reach 50 characters, so a
    shorter candidate is dropped. *)
Theorem chunk_by_sentences_min_size (text : str) (max_size overlap : Z) (c : str) :
  In c (chunk_by_sentences text max_size overlap) <->
  In c (sentence_chunks text max_size overlap) /\ 50 <= len c.
Proof.
  unfold chunk_by_sentences. rewrite List.filter_In.
  unfold MIN_CHUNK_SIZE. rewrite Z.geb_le. reflexivity.
Qed.

Lemma chunk_by_sentences_min_size_witness :
  let c := sentence 899 in
  In c (chunk_by_sentences three_long_sentences 1000 150)
  /\ 50 <= len c.
Proof.
  assert (H : In (sentence 899)
                (chunk_by_sentences three_long_sentences 1000 150)).
  { vm_compute. left. reflexivity. }
  split; [exact H|].
  apply (proj1 (chunk_by_sentences_min_size three_long_sentences 1000 150
                  (sentence 899)) H).
Defined.

End MinSize.

(** ** The chunker, strategy by strategy *)

Section ChunkerView.

Variable a : Article.

Lemma strip_nil_blank (s : str) : truthy (strip s) = negb (blank s).
Proof.
  unfold strip, blank. induction s as [|c t IH]; simpl; [reflexivity|].
  destruct (isspace c) eqn:Hc; simpl.
  - destruct (rstrip t) as [|d r] eqn:Er; simpl in *.
    + exact IH.
    + rewrite Hc. exact IH.
  - destruct (rstrip t) as [|d r] eqn:Er; simpl; rewrite Hc; reflexivity.
Qed.

Lemma faq_docs_items (docs : list Document) :
  faq_docs a docs = docs ++ flat_map (faq_items a) (faq_pairs a).
Proof.
  unfold faq_docs. apply fold_left_ext_append. intros acc p.
  unfold faq_step, faq_items. rewrite !strip_nil_blank.
  destruct (blank (question p)), (blank (answer p)); simpl;
    rewrite ?app_nil_r; reflexivity.
Qed.

Lemma steps_step_eq (docs : list Document) (sg step : str) :
  steps_step a (docs, sg) step =
  if (len sg + len step >? 1000) && (len sg >? len (context_prefix a) + 30)
  then (docs ++ [steps_doc a sg],
        context_prefix a ++ lit "How to (continued):" ++ [nl] ++ step ++ [nl])
  else (docs, sg ++ step ++ [nl]).
Proof.
  unfold steps_step, MAX_CHUNK_SIZE.
  destruct (_ && _); [|reflexivity].
  rewrite <- !app_assoc. reflexivity.
Qed.

Lemma steps_loop_items (l : list str) (docs : list Document) (sg : str) :
  (let '(d, g) := fold_left (steps_step a) l (docs, sg) in
   if len (strip g) >? len (context_prefix a) + 30
   then d ++ [steps_doc a g] else d)
  = docs ++ map (steps_doc a) (group_steps (context_prefix a) sg l).
Proof.
  revert docs sg. induction l as [|step l IH]; intros docs sg.
  - simpl. destruct (_ >? _); simpl; rewrite ?app_nil_r; reflexivity.
  - cbn [fold_left group_steps]. rewrite steps_step_eq.
    destruct (_ && _).
    + rewrite IH. simpl map. rewrite <- !app_assoc. reflexivity.
    + apply IH.
Qed.

Lemma section_docs_items (docs : list Document) :
  section_docs a docs = docs ++ flat_map (section_items a) (sections a).
Proof.
  unfold section_docs. apply fold_left_ext_append. intros acc s.
  unfold section_step, section_items.
  destruct (truthy (content s)); simpl; [|rewrite app_nil_r; reflexivity].
  destruct (_ <=? _); [reflexivity|].
  rewrite (fold_left_append (fun sc => [section_doc a (heading s) sc])).
  rewrite flat_map_singleton. reflexivity.
Qed.

Lemma note_docs_items (docs : list Document) :
  note_docs a docs = docs ++ flat_map (note_items a) (notes a).
Proof.
  unfold note_docs. apply fold_left_ext_append. intros acc n.
  unfold note_step, note_items.
  destruct (_ >=? _); rewrite ?app_nil_r; reflexivity.
Qed.

Lemma steps_docs_items (docs : list Document) :
  steps_docs a docs = docs ++ steps_items a.
Proof.
  unfold steps_docs, steps_items.
  destruct (steps a) as [|s l] eqn:E; [rewrite app_nil_r; reflexivity|].
  apply (steps_loop_items (s :: l)).
Qed.

Lemma structured_docs_items :
  structured_docs a =
  flat_map (faq_items a) (faq_pairs a) ++ steps_items a
  ++ flat_map (section_items a) (sections a).
Proof.
  unfold structured_docs.
  rewrite section_docs_items, steps_docs_items, faq_docs_items.
  rewrite <- app_assoc. reflexivity.
Qed.

Lemma chunk_by_sentences_nil (max_size overlap : Z) :
  chunk_by_sentences [] max_size overlap = [].
Proof. reflexivity. Qed.

Lemma fallback_docs_items (docs : list Document) :
  fallback_docs a docs =
  docs ++ match docs with [] => text_items a | _ :: _ => [] end.
Proof.
  unfold fallback_docs, text_items. destruct docs as [|d docs].
  - destruct (full_text a) as [|c t] eqn:E; [reflexivity|].
    cbn [truthy].
    rewrite (fold_left_append (fun tc => [text_doc a tc])).
    rewrite flat_map_singleton. reflexivity.
  - rewrite app_nil_r. reflexivity.
Qed.

(** The output of the chunker: the structured chunks, then the fallback
    chunks when there is no structured chunk, then the notes. *)
Lemma create_items :
  create_langchain_docs_from_article a =
  structured_docs a ++ fallback_items a ++ flat_map (note_items a) (notes a).
Proof.
  unfold create_langchain_docs_from_article, fallback_items.
  rewrite note_docs_items, fallback_docs_items, <- app_assoc. reflexivity.
Qed.

(** The type tag of the chunks of each strategy. *)
Lemma chunk_type_faq_doc (q x : str) :
  chunk_type (faq_doc a q x) = Some (lit "faq").
Proof. reflexivity. Qed.

Lemma chunk_type_steps_doc (g : str) :
  chunk_type (steps_doc a g) = Some (lit "steps").
Proof. reflexivity. Qed.

Lemma chunk_type_section_doc (h b : str) :
  chunk_type (section_doc a h b) = Some (lit "section").
Proof. reflexivity. Qed.

Lemma chunk_type_text_doc (b : str) :
  chunk_type (text_doc a b) = Some (lit "text").
Proof. reflexivity. Qed.

Lemma chunk_type_note_doc (b : str) :
  chunk_type (note_doc a b) = Some (lit "note").
Proof. reflexivity. Qed.

Lemma faq_items_typed (l : list FaqPair) :
  Forall (fun d => chunk_type d = Some (lit "faq")) (flat_map (faq_items a) l).
Proof.
  rewrite Forall_flat_map; apply List.Forall_forall. intros p _. unfold faq_items.
  destruct (_ || _); repeat constructor.
Qed.

Lemma steps_items_typed :
  Forall (fun d => chunk_type d = Some (lit "steps")) (steps_items a).
Proof.
  unfold steps_items. destruct (steps a); [constructor|].
  rewrite Forall_map; apply List.Forall_forall. intros g _. reflexivity.
Qed.

Lemma section_items_typed (l : list SectionEntry) :
  Forall (fun d => chunk_type d = Some (lit "section"))
    (flat_map (section_items a) l).
Proof.
  rewrite Forall_flat_map; apply List.Forall_forall. intros s _. unfold section_items.
  destruct (negb _); [constructor|].
  destruct (_ <=? _); [repeat constructor|].
  rewrite Forall_map; apply List.Forall_forall. intros g _. reflexivity.
Qed.

Lemma text_items_typed :
  Forall (fun d => chunk_type d = Some (lit "text")) (text_items a).
Proof.
  unfold text_items. rewrite Forall_map; apply List.Forall_forall. intros g _. reflexivity.
Qed.

Lemma fallback_items_typed :
  Forall (fun d => chunk_type d = Some (lit "text")) (fallback_items a).
Proof.
  unfold fallback_items. destruct (structured_docs a);
    [apply text_items_typed|constructor].
Qed.

Lemma note_items_typed (l : list str) :
  Forall (fun d => chunk_type d = Some (lit "note")) (flat_map (note_items a) l).
Proof.
  rewrite Forall_flat_map; apply List.Forall_forall. intros n _. unfold note_items.
  destruct (_ >=? _); repeat constructor.
Qed.

Lemma structured_docs_typed :
  Forall (fun d => chunk_type d = Some (lit "faq")
                   \/ chunk_type d = Some (lit "steps")
                   \/ chunk_type d = Some (lit "section"))
    (structured_docs a).
Proof.
  rewrite structured_docs_items. rewrite !Forall_app. repeat split.
  - eapply List.Forall_impl; [|apply faq_items_typed]. simpl. tauto.
  - eapply List.Forall_impl; [|apply steps_items_typed]. simpl. tauto.
  - eapply List.Forall_impl; [|apply section_items_typed]. simpl. tauto.
Qed.

End ChunkerView.

Section TypeFilter.

Lemma filter_typed_same (t : string) (l : list Document) :
  Forall (fun d => chunk_type d = Some (lit t)) l ->
  List.filter (has_type t) l = l.
Proof.
  induction 1 as [|d l Hd _ IH]; simpl; [reflexivity|].
  unfold has_type at 1. rewrite bool_decide_true by exact Hd.
  rewrite IH. reflexivity.
Qed.

Lemma filter_typed_other (t : string) (l : list Document) :
  Forall (fun d => chunk_type d <> Some (lit t)) l ->
  List.filter (has_type t) l = [].
Proof.
  induction 1 as [|d l Hd _ IH]; simpl; [reflexivity|].
  unfold has_type at 1. rewrite bool_decide_false by exact Hd.
  exact IH.
Qed.

Lemma typed_other (t t' : string) (l : list Document) :
  lit t' <> lit t ->
  Forall (fun d => chunk_type d = Some (lit t')) l ->
  Forall (fun d => chunk_type d <> Some (lit t)) l.
Proof.
  intros Hne. apply List.Forall_impl. intros d Hd. rewrite Hd. congruence.
Qed.

End TypeFilter.

(** Rewrites the chunks of a given type in the output of the chunker down
    to the items of the strategies. *)
Ltac filter_by_type :=
  rewrite ?List.filter_app;
  repeat match goal with
    | |- context [List.filter (has_type ?t) (flat_map (faq_items ?a) ?l)] =>
        first [ rewrite (filter_typed_same t _ (faq_items_typed a l))
              | rewrite (filter_typed_other t _
                           (typed_other t "faq" _ ltac:(discriminate)
                              (faq_items_typed a l))) ]
    | |- context [List.filter (has_type ?t) (steps_items ?a)] =>
        first [ rewrite (filter_typed_same t _ (steps_items_typed a))
              | rewrite (filter_typed_other t _
                           (typed_other t "steps" _ ltac:(discriminate)
                              (steps_items_typed a))) ]
    | |- context [List.filter (has_type ?t) (flat_map (section_items ?a) ?l)] =>
        first [ rewrite (filter_typed_same t _ (section_items_typed a l))
              | rewrite (filter_typed_other t _
                           (typed_other t "section" _ ltac:(discriminate)
                              (section_items_typed a l))) ]
    | |- context [List.filter (has_type ?t) (fallback_items ?a)] =>
        first [ rewrite (filter_typed_same t _ (fallback_items_typed a))
              | rewrite (filter_typed_other t _
                           (typed_other t "text" _ ltac:(discriminate)
                              (fallback_items_typed a))) ]
    | |- context [List.filter (has_type ?t) (flat_map (note_items ?a) ?l)] =>
        first [ rewrite (filter_typed_same t _ (note_items_typed a l))
              | rewrite (filter_typed_other t _
                           (typed_other t "note" _ ltac:(discriminate)
                              (note_items_typed a l))) ]
    end.

(** ** FAQ chunks *)

Section Faq.

Lemma faq_items_filter (a : Article) (l : list FaqPair) :
  flat_map (faq_items a) l =
  map (fun p => faq_doc a (strip (question p)) (strip (answer p)))
    (List.filter (fun p => negb (blank (question p)) && negb (blank (answer p))) l).
Proof.
  induction l as [|p l IH]; simpl; [reflexivity|].
  unfold faq_items at 1.
  destruct (blank (question p)), (blank (answer p)); simpl; rewrite IH;
    reflexivity.
Qed.

(** C10. The [faq] chunks of an article are, in document order, one chunk
    for each FAQ pair whose question and answer both hold a character
    that is not white space; a pair whose question or answer is empty or
    all white space gives no chunk.  The chunk carries the trimmed
    question and answer. *)
Theorem faq_chunks_skip_blank_pairs (a : Article) :
  List.filter (has_type "faq") (create_langchain_docs_from_article a) =
  map (fun p => faq_doc a (strip (question p)) (strip (answer p)))
    (List.filter
       (fun p => negb (blank (question p)) && negb (blank (answer p)))
       (faq_pairs a)).
Proof.
  rewrite create_items, structured_docs_items, <- faq_items_filter.
  filter_by_type. rewrite ?app_nil_r. reflexivity.
Qed.

End Faq.

(** ** The full-text fallback *)

Section Fallback.

Lemma text_chunks_of_output (a : Article) :
  List.filter (has_type "text") (create_langchain_docs_from_article a) =
  fallback_items a.
Proof.
  rewrite create_items. rewrite List.filter_app.
  rewrite (filter_typed_other "text" (structured_docs a)).
  - filter_by_type. rewrite app_nil_r. reflexivity.
  - eapply List.Forall_impl; [|apply structured_docs_typed].
    intros d [H|[H|H]]; rewrite H; discriminate.
Qed.

(** C2, as the code has it.  The [text] chunks of the output are the
    sentence-packed pieces of the full text when strategies 1 to 3 left no
    chunk, and there is none otherwise.  Hence a [text] chunk appears
    exactly when strategies 1 to 3 produced nothing and sentence packing
    of the full text yields at least one piece. *)
Theorem fallback_last_resort (a : Article) :
  List.filter (has_type "text") (create_langchain_docs_from_article a) =
    match structured_docs a with
    | [] => map (text_doc a)
              (chunk_by_sentences (full_text a) MAX_CHUNK_SIZE CHUNK_OVERLAP)
    | _ :: _ => []
    end
  /\ ((exists d, In d (create_langchain_docs_from_article a)
                 /\ has_type "text" d = true)
      <-> structured_docs a = []
          /\ chunk_by_sentences (full_text a) MAX_CHUNK_SIZE CHUNK_OVERLAP <> []).
Proof.
  split; [apply text_chunks_of_output|].
  split.
  - intros [d [Hin Ht]].
    assert (Hf : In d (fallback_items a)).
    { rewrite <- text_chunks_of_output. apply List.filter_In. tauto. }
    unfold fallback_items, text_items in Hf.
    destruct (structured_docs a); [|destruct Hf].
    split; [reflexivity|]. intros E. rewrite E in Hf. destruct Hf.
  - intros [Hs Hc].
    destruct (chunk_by_sentences _ _ _) as [|c l] eqn:E; [congruence|].
    exists (text_doc a c).
    rewrite <- (List.filter_In (has_type "text")), text_chunks_of_output.
    unfold fallback_items, text_items. rewrite Hs, E. left. reflexivity.
Qed.

Lemma fallback_last_resort_witness :
  exists d, In d (create_langchain_docs_from_article plain_text_article)
            /\ has_type "text" d = true.
Proof.
  apply (proj2 (fallback_last_resort plain_text_article)).
  split; [reflexivity|discriminate].
Defined.

(** C2 as stated fails from right to left: here strategies 1 to 3 produce
    nothing, and yet the output has no [text] chunk, the only piece of
    the full text being below the size floor. *)
Lemma fallback_absent_on_short_text :
  structured_docs short_text_article = []
  /\ full_text short_text_article <> []
  /\ ~ (exists d, In d (create_langchain_docs_from_article short_text_article)
                  /\ has_type "text" d = true).
Proof.
  split; [reflexivity|]. split; [discriminate|].
  intros [d [Hin _]]. vm_compute in Hin. exact Hin.
Qed.

End Fallback.

(** ** The scenario of one FAQ pair *)

Section PayNow.

Lemma note_items_short (a : Article) (ns : list str) :
  Forall (fun n => len n < MIN_CHUNK_SIZE) ns ->
  flat_map (note_items a) ns = [].
Proof.
  induction 1 as [|n ns Hn _ IH]; simpl; [reflexivity|].
  unfold note_items at 1.
  destruct (len n >=? MIN_CHUNK_SIZE) eqn:E; [|exact IH].
  apply Z.geb_le in E. lia.
Qed.

(** C5. An article with category "Banking - PayNow", title "PayNow FAQ",
    the single FAQ pair ("What is PayNow?", "PayNow is a funds transfer
    service."), no steps, no sections and no note of 50 characters or
    more gives exactly one chunk; it has type [faq], the content of the
    scenario, and the question in its metadata. *)
Theorem paynow_single_faq_chunk (u ft ts : str) (ns : list str) :
  Forall (fun n => len n < MIN_CHUNK_SIZE) ns ->
  exists d,
    create_langchain_docs_from_article
      {| url := u;
         title := lit "PayNow FAQ";
         category := lit "Banking - PayNow";
         full_text := ft;
         steps := [];
         faq_pairs := [ {| question := lit "What is PayNow?";
                           answer := lit "PayNow is a funds transfer service." |} ];
         sections := [];
         notes := ns;
         scraped_at := ts |} = [d]
    /\ page_content d =
         lit "[Banking - PayNow] PayNow FAQ" ++ [nl]
         ++ lit "Q: What is PayNow?" ++ [nl]
         ++ lit "A: PayNow is a funds transfer service."
    /\ chunk_type d = Some (lit "faq")
    /\ metadata d !! "question"%string = Some (lit "What is PayNow?").
Proof.
  intros Hns. eexists. split.
  - rewrite create_items. cbn [notes]. rewrite (note_items_short _ _ Hns).
    unfold fallback_items. rewrite structured_docs_items.
    cbn [faq_pairs sections flat_map]. unfold steps_items. cbn [steps].
    rewrite !app_nil_r. reflexivity.
  - repeat split; reflexivity.
Qed.

Lemma paynow_single_faq_chunk_witness :
  exists d,
    create_langchain_docs_from_article paynow_article = [d]
    /\ page_content d =
         lit "[Banking - PayNow] PayNow FAQ" ++ [nl]
         ++ lit "Q: What is PayNow?" ++ [nl]
         ++ lit "A: PayNow is a funds transfer service."
    /\ chunk_type d = Some (lit "faq")
    /\ metadata d !! "question"%string = Some (lit "What is PayNow?").
Proof.
  apply (paynow_single_faq_chunk (url paynow_article)
           (full_text paynow_article) (scraped_at paynow_article)
           [lit "Fees may apply."]).
  repeat constructor.
Defined.

End PayNow.

(** ** Step grouping *)

Section Steps.

(** C3, as the code has it.  Before a step is appended the buffer is
    flushed as one [steps] chunk, and a new buffer started with the
    continuation header, exactly when the length of the buffer plus the
    length of the step is above 1000 and the buffer is more than 30
    characters longer than the context prefix; the step is then appended
    with a line feed.  For a step list that is not empty, the chunks are
    the buffers flushed on the way and, at the end, the remaining buffer
    when its trimmed length is more than 30 above that of the context
    prefix. *)
Theorem steps_flush_rule (a : Article) :
  (forall (docs : list Document) (buffer step : str),
     steps_step a (docs, buffer) step =
     if (len buffer + len step >? 1000)
        && (len buffer >? len (context_prefix a) + 30)
     then (docs ++ [steps_doc a buffer],
           context_prefix a ++ lit "How to (continued):" ++ [nl]
           ++ step ++ [nl])
     else (docs, buffer ++ step ++ [nl]))
  /\ (forall docs : list Document,
        steps_docs a docs =
        docs ++ match steps a with
                | [] => []
                | _ :: _ =>
                    map (steps_doc a)
                      (group_steps (context_prefix a)
                         (context_prefix a ++ lit "How to (step-by-step):"
                          ++ [nl])
                         (steps a))
                end).
Proof.
  split.
  - intros docs buffer step. apply steps_step_eq.
  - intros docs. apply steps_docs_items.
Qed.

(** C3 as stated fails: with two steps of 600 characters the buffer holds
    639 characters when the second step arrives, so it does not exceed
    1000 characters, and it is flushed all the same. *)
Lemma steps_flush_below_limit :
  let a := two_long_steps_article in
  let header := context_prefix a ++ lit "How to (step-by-step):" ++ [nl] in
  let buffer := header ++ sentence 599 ++ [nl] in
  steps_step a ([], header) (sentence 599) = ([], buffer)
  /\ len buffer = 639
  /\ fst (steps_step a ([], buffer) (sentence 599)) = [steps_doc a buffer]
  /\ steps_docs a [] =
       [steps_doc a buffer;
        steps_doc a (context_prefix a ++ lit "How to (continued):" ++ [nl]
                     ++ sentence 599 ++ [nl])].
Proof. vm_compute. repeat split; reflexivity. Qed.

End Steps.

(** ** Context assembly *)

Section Context.

Lemma in_structured_docs (a : Article) (d : Document) :
  In d (create_langchain_docs_from_article a) ->
  (exists p, d = faq_doc a (strip (question p)) (strip (answer p)))
  \/ (exists g, In d [steps_doc a g]
                /\ In g (group_steps (context_prefix a)
                           (context_prefix a ++ lit "How to (step-by-step):"
                            ++ [nl]) (steps a)))
  \/ (exists h b, d = section_doc a h b)
  \/ (exists b, d = text_doc a b)
  \/ (exists n, d = note_doc a n).
Proof.
  rewrite create_items, structured_docs_items, !in_app_iff, !in_flat_map.
  intros [[H|[H|H]]|[H|H]].
  - destruct H as [p [_ H]]. unfold faq_items in H.
    destruct (_ || _); [destruct H|]. destruct H as [H|[]]. eauto.
  - unfold steps_items in H. destruct (steps a); [destruct H|].
    apply in_map_iff in H. destruct H as [g [H1 H2]].
    right; left. exists g. split; [left; exact H1|exact H2].
  - destruct H as [s [_ H]]. unfold section_items in H.
    destruct (negb _); [destruct H|].
    destruct (_ <=? _).
    + destruct H as [H|[]]. eauto 8.
    + apply in_map_iff in H. destruct H as [b [H _]]. eauto 8.
  - unfold fallback_items, text_items in H.
    destruct (structured_docs a); [|destruct H].
    apply in_map_iff in H. destruct H as [b [H _]]. eauto 8.
  - destruct H as [n [_ H]]. unfold note_items in H.
    destruct (_ >=? _); [|destruct H]. destruct H as [H|[]]. eauto 8.
Qed.

Lemma chunk_metadata (a : Article) (d : Document) :
  In d (create_langchain_docs_from_article a) ->
  get (metadata d) "title" = title a
  /\ get (metadata d) "url" = url a
  /\ get (metadata d) "source" = url a.
Proof.
  intros H. apply in_structured_docs in H.
  destruct H as [[p ->]|[[g [[<-|[]] _]]|[[h [b ->]]|[[b ->]|[n ->]]]]];
    repeat split; reflexivity.
Qed.

(** C9. [format_docs] renders each chunk as "[Source: title]", a line
    feed, the content, a line feed, "(URL: source)", and joins the
    renderings with a rule "---" between blank lines.  Title and source
    are read from the metadata of the chunk, the source under the key
    "url"; for a chunk made by the chunker these are the title and the
    URL of its article, and the key "source" holds the same URL. *)
Theorem format_docs_layout :
  (forall docs : list Document,
     format_docs docs =
     join ([nl; nl] ++ lit "---" ++ [nl; nl])
       (map (fun d => lit "[Source: " ++ get (metadata d) "title" ++ lit "]"
                      ++ [nl] ++ page_content d ++ [nl]
                      ++ lit "(URL: " ++ get (metadata d) "url" ++ lit ")")
          docs))
  /\ (forall (a : Article) (d : Document),
        In d (create_langchain_docs_from_article a) ->
        get (metadata d) "title" = title a
        /\ get (metadata d) "url" = url a
        /\ get (metadata d) "source" = url a).
Proof.
  split; [|apply chunk_metadata].
  intros docs. unfold format_docs, separator.
  rewrite (fold_left_append
             (fun d => [lit "[Source: " ++ get (metadata d) "title" ++ lit "]"
                        ++ [nl] ++ page_content d ++ [nl]
                        ++ lit "(URL: " ++ get (metadata d) "url" ++ lit ")"])).
  rewrite flat_map_singleton. reflexivity.
Qed.

Lemma format_docs_layout_witness :
  let d := faq_doc paynow_article (lit "What is PayNow?")
             (lit "PayNow is a funds transfer service.") in
  In d (create_langchain_docs_from_article paynow_article)
  /\ get (metadata d) "title" = lit "PayNow FAQ"
  /\ get (metadata d) "url" = url paynow_article
  /\ get (metadata d) "source" = url paynow_article.
Proof.
  split; [left; reflexivity|].
  apply (proj2 format_docs_layout paynow_article). left. reflexivity.
Defined.

End Context.

(** ** The context line *)

Section ContextLine.

Variable a : Article.

Lemma strip_step_group (r : str) :
  strip (context_prefix a ++ lit "How to (" ++ r) =
  context_prefix a ++ lit "How to (" ++ rstrip r.
Proof.
  unfold strip.
  change (context_prefix a ++ lit "How to (" ++ r)
    with (context_prefix a ++ lit "How to " ++ "("%char :: r).
  rewrite app_assoc, rstrip_black_inside by reflexivity.
  rewrite <- app_assoc. unfold context_prefix.
  apply lstrip_black. reflexivity.
Qed.

Lemma group_steps_shape (l : list str) (sg : str) :
  (exists r, sg = context_prefix a ++ lit "How to (" ++ r) ->
  forall g, In g (group_steps (context_prefix a) sg l) ->
  exists r, g = context_prefix a ++ lit "How to (" ++ r.
Proof.
  revert sg. induction l as [|step l IH]; intros sg Hsg g Hg;
    cbn [group_steps] in Hg.
  - destruct (_ >? _); [|destruct Hg]. destruct Hg as [<-|[]]. exact Hsg.
  - destruct (_ && _).
    + destruct Hg as [<-|Hg]; [exact Hsg|].
      eapply IH; [|exact Hg].
      exists (lit "continued):" ++ [nl] ++ step ++ [nl]). reflexivity.
    + eapply IH; [|exact Hg]. destruct Hsg as [r ->]. eexists.
      rewrite <- !app_assoc. reflexivity.
Qed.

(** C8. The content of every chunk of an article starts with the context
    line "[category] title" and a line feed; in particular it is not
    empty. *)
Theorem chunk_content_has_context_line (d : Document) :
  In d (create_langchain_docs_from_article a) ->
  page_content d <> []
  /\ exists rest,
       page_content d =
       lit "[" ++ category a ++ lit "] " ++ title a ++ [nl] ++ rest.
Proof.
  intros H.
  assert (Hp : exists rest, page_content d = context_prefix a ++ rest).
  { apply in_structured_docs in H.
    destruct H as [[p ->]|[[g [[<-|[]] Hg]]|[[h [b ->]]|[[b ->]|[n ->]]]]];
      try (eexists; reflexivity).
    apply group_steps_shape in Hg.
    - destruct Hg as [r ->]. cbn [steps_doc page_content].
      rewrite strip_step_group. eexists; reflexivity.
    - eexists.
      change (lit "How to (step-by-step):")
        with (lit "How to (" ++ lit "step-by-step):").
      rewrite <- !app_assoc. reflexivity. }
  destruct Hp as [rest Hp]. rewrite Hp. unfold context_prefix. split.
  - discriminate.
  - exists rest. rewrite <- !app_assoc. reflexivity.
Qed.

End ContextLine.

Lemma chunk_content_has_context_line_witness :
  let d := faq_doc paynow_article (lit "What is PayNow?")
             (lit "PayNow is a funds transfer service.") in
  In d (create_langchain_docs_from_article paynow_article)
  /\ page_content d <> []
  /\ exists rest,
       page_content d =
       lit "[" ++ lit "Banking - PayNow" ++ lit "] " ++ lit "PayNow FAQ"
       ++ [nl] ++ rest.
Proof.
  split; [left; reflexivity|].
  apply (chunk_content_has_context_line paynow_article). left. reflexivity.
Defined.

(** ** White-space normalisation *)

Section Normalisation.

Lemma no_ws_run_tail (c : ascii) (t : str) :
  no_ws_run (c :: t) = true -> no_ws_run t = true.
Proof.
  destruct t as [|d t]; [reflexivity|]. cbn [no_ws_run].
  intros H. apply andb_true_iff in H. tauto.
Qed.

Lemma no_ws_run_cons (c : ascii) (t : str) :
  no_ws_run t = true ->
  (isspace c = true -> no_leading_ws t = true) ->
  no_ws_run (c :: t) = true.
Proof.
  intros Ht Hc. destruct t as [|d t]; [reflexivity|].
  change (negb (isspace c && isspace d) && no_ws_run (d :: t) = true).
  rewrite Ht, andb_true_r.
  destruct (isspace c); [|reflexivity].
  specialize (Hc eq_refl). cbn [no_leading_ws] in Hc. exact Hc.
Qed.

Lemma no_ws_run_cons_inv (c : ascii) (t : str) :
  no_ws_run (c :: t) = true ->
  isspace c = true -> no_leading_ws t = true.
Proof.
  destruct t as [|d t]; [reflexivity|]. cbn [no_ws_run no_leading_ws].
  intros H Hc. rewrite Hc in H. destruct (isspace d); [discriminate|reflexivity].
Qed.

Lemma no_trailing_ws_tail (c : ascii) (t : str) :
  no_trailing_ws (c :: t) = true -> no_trailing_ws t = true.
Proof. destruct t; [reflexivity|]. cbn [no_trailing_ws]. tauto. Qed.

Lemma no_trailing_ws_cons (c : ascii) (t : str) :
  no_trailing_ws t = true ->
  (t = [] -> isspace c = false) ->
  no_trailing_ws (c :: t) = true.
Proof.
  intros Ht Hc. destruct t; [|exact Ht].
  cbn [no_trailing_ws]. rewrite Hc; reflexivity.
Qed.

Lemma no_trailing_ws_last (c : ascii) :
  no_trailing_ws [c] = true -> isspace c = false.
Proof. cbn [no_trailing_ws]. destruct (isspace c); [discriminate|reflexivity]. Qed.

(** *** [re.sub] and [strip] *)

Lemma sub_ws_no_leading (t : str) : no_leading_ws (sub_ws true t) = true.
Proof.
  induction t as [|c t IH]; cbn [sub_ws]; [reflexivity|].
  destruct (isspace c) eqn:Hc; [exact IH|]. cbn [no_leading_ws].
  rewrite Hc. reflexivity.
Qed.

Lemma sub_ws_no_run (b : bool) (t : str) : no_ws_run (sub_ws b t) = true.
Proof.
  revert b. induction t as [|c t IH]; intros b; cbn [sub_ws]; [reflexivity|].
  destruct (isspace c) eqn:Hc.
  - destruct b; [apply IH|].
    apply no_ws_run_cons; [apply IH|].
    intros _. apply sub_ws_no_leading.
  - apply no_ws_run_cons; [apply IH|]. congruence.
Qed.

Lemma lstrip_no_leading (s : str) : no_leading_ws (lstrip s) = true.
Proof.
  induction s as [|c t IH]; cbn [lstrip]; [reflexivity|].
  destruct (isspace c) eqn:Hc; [exact IH|]. cbn [no_leading_ws].
  rewrite Hc. reflexivity.
Qed.

Lemma lstrip_no_run (s : str) :
  no_ws_run s = true -> no_ws_run (lstrip s) = true.
Proof.
  induction s as [|c t IH]; cbn [lstrip]; [reflexivity|].
  intros H. destruct (isspace c); [|exact H].
  apply IH. exact (no_ws_run_tail _ _ H).
Qed.

Lemma lstrip_no_trailing (s : str) :
  no_trailing_ws s = true -> no_trailing_ws (lstrip s) = true.
Proof.
  induction s as [|c t IH]; cbn [lstrip]; [reflexivity|].
  intros H. destruct (isspace c); [|exact H].
  apply IH. exact (no_trailing_ws_tail _ _ H).
Qed.

Lemma rstrip_head (s : str) (d : ascii) (r : str) :
  rstrip s = d :: r -> exists t, s = d :: t.
Proof.
  destruct s as [|c t]; cbn [rstrip]; [discriminate|].
  destruct (rstrip t); [destruct (isspace c)|]; intros H; inversion H; eauto.
Qed.

Lemma rstrip_no_trailing (s : str) : no_trailing_ws (rstrip s) = true.
Proof.
  induction s as [|c t IH]; cbn [rstrip]; [reflexivity|].
  destruct (rstrip t) as [|d r].
  - destruct (isspace c) eqn:Hc; [reflexivity|].
    cbn [no_trailing_ws]. rewrite Hc. reflexivity.
  - exact IH.
Qed.

Lemma rstrip_no_run (s : str) :
  no_ws_run s = true -> no_ws_run (rstrip s) = true.
Proof.
  induction s as [|c t IH]; cbn [rstrip]; [reflexivity|].
  intros H. destruct (rstrip t) as [|d r] eqn:E.
  - destruct (isspace c); reflexivity.
  - apply no_ws_run_cons; [apply IH; exact (no_ws_run_tail _ _ H)|].
    intros Hc. apply rstrip_head in E. destruct E as [t' ->].
    exact (no_ws_run_cons_inv _ _ H Hc).
Qed.

Lemma ws_normalized_intro (s : str) :
  no_ws_run s = true -> no_leading_ws s = true -> no_trailing_ws s = true ->
  ws_normalized s = true.
Proof. unfold ws_normalized. intros -> -> ->. reflexivity. Qed.

Lemma ws_normalized_elim (s : str) :
  ws_normalized s = true ->
  no_ws_run s = true /\ no_leading_ws s = true /\ no_trailing_ws s = true.
Proof.
  unfold ws_normalized. intros H.
  apply andb_true_iff in H. destruct H as [H H3].
  apply andb_true_iff in H. tauto.
Qed.

(** [clean_text] returns normalised text. *)
Lemma clean_text_normalized (s : str) : ws_normalized (clean_text s) = true.
Proof.
  unfold clean_text, strip, re_sub_ws. apply ws_normalized_intro.
  - apply lstrip_no_run, rstrip_no_run, sub_ws_no_run.
  - apply lstrip_no_leading.
  - apply lstrip_no_trailing, rstrip_no_trailing.
Qed.

End Normalisation.

(** ** Sentence packing *)

Section Packing.

Variables max_size overlap : Z.

(** For a positive [overlap] the slice [current_chunk[-overlap:]], taken
    when the buffer is longer than [overlap], and the whole buffer
    otherwise, are the trailing [overlap] characters of the buffer. *)
Lemma overlap_text_trailing (current_chunk : str) :
  0 < overlap ->
  (if len current_chunk >? overlap
   then py_slice_from (- overlap) current_chunk
   else current_chunk)
  = trailing (Z.to_nat overlap) current_chunk.
Proof.
  intros Hpos. unfold trailing, py_slice_from, len.
  destruct (Z.gtb_spec (Z.of_nat (length current_chunk)) overlap) as [H|H].
  - destruct (Z.ltb_spec (- overlap) 0) as [_|H']; [|lia].
    f_equal. lia.
  - replace (length current_chunk - Z.to_nat overlap)%nat with 0%nat by lia.
    reflexivity.
Qed.

Lemma sentence_step_eq (chunks : list str) (buffer raw : str) :
  0 < overlap ->
  sentence_step max_size overlap (chunks, buffer) raw =
  if negb (truthy (strip raw)) then (chunks, buffer)
  else if truthy buffer && (len buffer + len (strip raw) >? max_size)
  then (chunks ++ [strip buffer],
        trailing (Z.to_nat overlap) buffer ++ [sp] ++ strip raw)
  else (chunks, strip (buffer ++ [sp] ++ strip raw)).
Proof.
  intros Hpos. unfold sentence_step.
  destruct (negb _); [reflexivity|].
  rewrite overlap_text_trailing by exact Hpos.
  rewrite andb_comm. reflexivity.
Qed.

Lemma sentence_loop_pack (pieces : list str) (chunks : list str) (buffer : str) :
  0 < overlap ->
  (let '(ch, cu) :=
     fold_left (sentence_step max_size overlap) pieces (chunks, buffer) in
   if truthy (strip cu) then ch ++ [strip cu] else ch)
  = chunks ++ pack max_size (Z.to_nat overlap) buffer
                (List.filter truthy (map strip pieces)).
Proof.
  intros Hpos. revert chunks buffer.
  induction pieces as [|raw pieces IH]; intros chunks buffer.
  - cbn [fold_left map List.filter pack].
    destruct (truthy _); rewrite ?app_nil_r; reflexivity.
  - cbn [fold_left map List.filter]. rewrite sentence_step_eq by exact Hpos.
    destruct (truthy (strip raw)); cbn [negb]; [|apply IH].
    cbn [pack]. destruct (_ && _); rewrite IH.
    + rewrite <- app_assoc. reflexivity.
    + reflexivity.
Qed.

Lemma sentence_chunks_pack (text : str) :
  0 < overlap ->
  sentence_chunks text max_size overlap =
  pack max_size (Z.to_nat overlap) [] (sentence_units text).
Proof.
  intros Hpos. unfold sentence_chunks, sentence_units.
  apply (sentence_loop_pack (re_split_sentences text) [] [] Hpos).
Qed.

Lemma trailing_len (k : nat) (buffer : str) :
  len (trailing k buffer) <= Z.of_nat k.
Proof. unfold trailing, len. rewrite length_drop. lia. Qed.

Lemma rstrip_fixed (s : str) : no_trailing_ws s = true -> rstrip s = s.
Proof.
  induction s as [|c t IH]; intros H; [reflexivity|]. cbn [rstrip].
  rewrite (IH (no_trailing_ws_tail _ _ H)).
  destruct t; [|reflexivity].
  rewrite (no_trailing_ws_last _ H). reflexivity.
Qed.

(** Trimming a text that ends with a trimmed, non-empty piece leaves the
    piece in place. *)
Lemma strip_keeps_suffix (x s : str) :
  s <> [] -> no_leading_ws s = true -> no_trailing_ws s = true ->
  exists y, strip (x ++ s) = y ++ s.
Proof.
  intros Hne Hlead Htrail. unfold strip.
  rewrite rstrip_app by (rewrite rstrip_fixed; assumption).
  rewrite rstrip_fixed by exact Htrail.
  induction x as [|c x IH].
  - exists []. destruct s as [|d s]; [congruence|].
    cbn [app]. apply lstrip_black.
    cbn [no_leading_ws] in Hlead. destruct (isspace d); [discriminate|reflexivity].
  - cbn [app lstrip]. destruct (isspace c); [exact IH|].
    exists (c :: x). reflexivity.
Qed.

Lemma sentence_unit_trimmed (text s : str) :
  In s (sentence_units text) ->
  s <> [] /\ no_leading_ws s = true /\ no_trailing_ws s = true.
Proof.
  unfold sentence_units. rewrite List.filter_In, in_map_iff.
  intros [[raw [<- _]] Ht]. split; [apply truthy_true, Ht|].
  unfold strip. split; [apply lstrip_no_leading|].
  apply lstrip_no_trailing, rstrip_no_trailing.
Qed.

Lemma chunk_fits_strip (units : list str) (buffer : str) :
  (forall s, In s units ->
     s <> [] /\ no_leading_ws s = true /\ no_trailing_ws s = true) ->
  chunk_fits max_size overlap units buffer ->
  chunk_fits max_size overlap units (strip buffer).
Proof.
  intros Hunits [H|[s [x [Hin [-> H]]]]].
  - left. pose proof (strip_len buffer). lia.
  - right. destruct (Hunits s Hin) as [H1 [H2 H3]].
    destruct (strip_keeps_suffix x s H1 H2 H3) as [y Hy].
    exists s, y. split; [exact Hin|]. split; [exact Hy|].
    pose proof (strip_len (x ++ s)). lia.
Qed.

(** The invariant of the packing loop: the buffer is empty or fits, and
    so does every chunk emitted from it. *)
Lemma pack_fits (units sentences : list str) (buffer : str) :
  0 < overlap ->
  (forall s, In s units ->
     s <> [] /\ no_leading_ws s = true /\ no_trailing_ws s = true) ->
  (forall s, In s sentences -> In s units) ->
  buffer = [] \/ chunk_fits max_size overlap units buffer ->
  Forall (chunk_fits max_size overlap units)
    (pack max_size (Z.to_nat overlap) buffer sentences).
Proof.
  intros Hpos Hunits. revert buffer.
  induction sentences as [|s sentences IH]; intros buffer Hsub Hb; cbn [pack].
  - destruct (truthy (strip buffer)) eqn:E; [|constructor].
    constructor; [|constructor].
    destruct Hb as [->|Hb]; [discriminate|].
    apply chunk_fits_strip; assumption.
  - assert (Hs : In s units) by (apply Hsub; left; reflexivity).
    assert (Hsub' : forall s', In s' sentences -> In s' units)
      by (intros s' H'; apply Hsub; right; exact H').
    destruct (Hunits s Hs) as [H1 [H2 H3]].
    destruct (truthy buffer && _) eqn:E.
    + apply andb_true_iff in E. destruct E as [E _].
      constructor.
      * destruct Hb as [->|Hb]; [discriminate|].
        apply chunk_fits_strip; assumption.
      * apply IH; [exact Hsub'|]. right. right.
        exists s, (trailing (Z.to_nat overlap) buffer ++ [sp]).
        split; [exact Hs|]. split; [rewrite <- app_assoc; reflexivity|].
        rewrite !len_app.
        pose proof (trailing_len (Z.to_nat overlap) buffer).
        change (len [sp]) with 1. lia.
    + apply IH; [exact Hsub'|]. right.
      pose proof (strip_len (buffer ++ [sp] ++ s)) as Hl.
      rewrite !len_app in Hl. change (len [sp]) with 1 in Hl.
      apply andb_false_iff in E. destruct E as [E|E].
      * apply truthy_false in E. subst buffer. right.
        destruct (strip_keeps_suffix [sp] s H1 H2 H3) as [y Hy].
        exists s, y. split; [exact Hs|]. split; [exact Hy|].
        change (len []) with 0 in Hl. cbn [app] in Hl |- *. lia.
      * left. destruct (Z.gtb_spec (len buffer + len s) max_size);
          [discriminate|lia].
Qed.

Lemma chunk_by_sentences_fits (text c : str) :
  0 < overlap ->
  In c (chunk_by_sentences text max_size overlap) ->
  chunk_fits max_size overlap (sentence_units text) c.
Proof.
  intros Hpos Hc. unfold chunk_by_sentences in Hc.
  apply List.filter_In in Hc. destruct Hc as [Hc _].
  rewrite sentence_chunks_pack in Hc by exact Hpos.
  pose proof (pack_fits (sentence_units text) (sentence_units text) []
                Hpos (sentence_unit_trimmed text) (fun s H => H)
                (or_introl eq_refl)) as Hall.
  rewrite List.Forall_forall in Hall. apply Hall, Hc.
Qed.

End Packing.

(** C6, as the code has it, for a positive overlap.  A sentence whose
    length added to that of a non-empty buffer is above [max_size] closes
    the buffer, which is emitted trimmed; the next buffer is the trailing
    [overlap] characters of the closed one (all of it when it has no more),
    a space, and the sentence.  Any other sentence is joined to the buffer
    with a space and the result trimmed.  The candidate chunks of
    [chunk_by_sentences] are those of this rule run over the sentence
    units of the text. *)
Theorem packing_step_rule (text : str) (max_size overlap : Z) :
  0 < overlap ->
  (forall (chunks : list str) (buffer raw : str),
     strip raw <> [] ->
     sentence_step max_size overlap (chunks, buffer) raw =
     if truthy buffer && (len buffer + len (strip raw) >? max_size)
     then (chunks ++ [strip buffer],
           trailing (Z.to_nat overlap) buffer ++ [sp] ++ strip raw)
     else (chunks, strip (buffer ++ [sp] ++ strip raw)))
  /\ sentence_chunks text max_size overlap =
     pack max_size (Z.to_nat overlap) [] (sentence_units text).
Proof.
  intros Hpos. split; [|apply sentence_chunks_pack; exact Hpos].
  intros chunks buffer raw Hraw. rewrite sentence_step_eq by exact Hpos.
  apply truthy_true in Hraw. rewrite Hraw. reflexivity.
Qed.

Lemma packing_step_rule_witness :
  sentence_chunks three_long_sentences 1000 150 =
  pack 1000 (Z.to_nat 150) [] (sentence_units three_long_sentences).
Proof.
  apply (proj2 (packing_step_rule three_long_sentences 1000 150 ltac:(lia))).
Defined.

(** C6 as stated fails at the boundary: a buffer and a sentence of 30
    characters each, with [max_size] 60.  Joined with a space they make 61
    characters, above [max_size], and yet the buffer is not closed: the
    test of the code leaves the space out. *)
Lemma packing_joins_beyond_max_size :
  let buffer := sentence 29 in
  let s := sentence 29 in
  buffer <> []
  /\ len (buffer ++ [sp] ++ s) > 60
  /\ sentence_step 60 10 ([], buffer) s = ([], buffer ++ [sp] ++ s).
Proof. split; [discriminate|]. split; reflexivity. Qed.

(** With [overlap] 0 the slice [current_chunk[-0:]] is the whole buffer,
    not its trailing 0 characters. *)
Lemma overlap_zero_keeps_buffer :
  sentence_step 5 0 ([], lit "One.") (lit "Two.") =
  ([lit "One."], lit "One. Two.").
Proof. reflexivity. Qed.

(** C1, as the code has it, for a positive overlap.  Every chunk returned
    by [chunk_by_sentences], the last one included, has at most
    [max_size + 1] characters, or else ends with a sentence unit [s] of
    the text and has at most [overlap + 1 + len s] characters: what
    precedes the sentence is overlap text and a space. *)
Theorem packing_chunk_bound (text : str) (max_size overlap : Z) (c : str) :
  0 < overlap ->
  In c (chunk_by_sentences text max_size overlap) ->
  len c <= max_size + 1
  \/ exists s x,
       In s (sentence_units text) /\ c = x ++ s
       /\ len c <= overlap + 1 + len s.
Proof.
  intros Hpos Hc.
  exact (chunk_by_sentences_fits max_size overlap text c Hpos Hc).
Qed.

Lemma packing_chunk_bound_witness :
  let c := trailing 150 (sentence 899) ++ [sp] ++ sentence 899 in
  In c (chunk_by_sentences three_long_sentences 1000 150)
  /\ (len c <= 1000 + 1
      \/ exists s x,
           In s (sentence_units three_long_sentences) /\ c = x ++ s
           /\ len c <= 150 + 1 + len s).
Proof.
  assert (H : In (trailing 150 (sentence 899) ++ [sp] ++ sentence 899)
                (chunk_by_sentences three_long_sentences 1000 150)).
  { vm_compute. right. left. reflexivity. }
  split; [exact H|].
  apply (packing_chunk_bound three_long_sentences 1000 150); [lia|exact H].
Defined.

(** When [limit] bounds the length of every sentence unit, every chunk has
    at most [max (max_size + 1) (overlap + 1 + limit)] characters. *)
Lemma packing_chunk_limit (text : str) (max_size overlap limit : Z) (c : str) :
  0 < overlap ->
  Forall (fun s => len s <= limit) (sentence_units text) ->
  In c (chunk_by_sentences text max_size overlap) ->
  len c <= Z.max (max_size + 1) (overlap + 1 + limit).
Proof.
  intros Hpos Hs Hc.
  destruct (chunk_by_sentences_fits max_size overlap text c Hpos Hc)
    as [H|[s [x [Hin [_ H]]]]]; [lia|].
  rewrite List.Forall_forall in Hs. specialize (Hs s Hin). lia.
Qed.

(** C1 as stated fails.  With the default sizes, three sentences of 900
    characters give three chunks; the second, which is not the last, has
    1051 characters: 150 of overlap, a space and a sentence.  No sentence
    exceeds 1000 characters. *)
Lemma packing_overshoot_without_long_sentence :
  exists first c last,
    chunk_by_sentences three_long_sentences MAX_CHUNK_SIZE CHUNK_OVERLAP
    = [first; c; last]
    /\ len c = 1051
    /\ MAX_CHUNK_SIZE = 1000
    /\ Forall (fun s => len s = 900) (sentence_units three_long_sentences).
Proof.
  do 3 eexists. split; [vm_compute; reflexivity|].
  split; [reflexivity|]. split; [reflexivity|].
  vm_compute. repeat constructor.
Qed.


Section NormalisationClosure.

(** *** [replace] of a pattern that starts with white space, by nothing *)

Lemma startswith_head (c0 c : ascii) (q t : str) :
  startswith (c0 :: q) (c :: t) = true -> c = c0.
Proof.
  cbn [startswith]. intros H. apply andb_true_iff in H.
  destruct H as [H _]. apply Ascii.eqb_eq in H. congruence.
Qed.

Lemma replace_go_normalized (c0 : ascii) (q : str) (t : str) :
  isspace c0 = true ->
  forall k : nat,
    no_ws_run t = true -> no_trailing_ws t = true ->
    let r := replace_go (c0 :: q) [] k t in
    no_ws_run r = true
    /\ no_trailing_ws r = true
    /\ (k = 0%nat ->
        (no_leading_ws t = true -> no_leading_ws r = true)
        /\ (r = [] -> t = [] \/ no_leading_ws t = false)).
Proof.
  intros Hc0. induction t as [|c t IH]; intros k Hrun Htrail r.
  - subst r. cbn [replace_go]. repeat split; auto.
  - pose proof (no_ws_run_tail _ _ Hrun) as Hrun'.
    pose proof (no_trailing_ws_tail _ _ Htrail) as Htrail'.
    destruct k as [|k].
    + subst r. cbn [replace_go].
      destruct (startswith (c0 :: q) (c :: t)) eqn:E.
      * apply startswith_head in E. subst c. cbn [app].
        destruct (IH (length (c0 :: q) - 1)%nat Hrun' Htrail') as [H1 [H2 _]].
        split; [exact H1|]. split; [exact H2|]. intros _.
        cbn [no_leading_ws]. rewrite Hc0. split; [discriminate|].
        intros _. right. reflexivity.
      * destruct (IH 0%nat Hrun' Htrail') as [H1 [H2 H3]].
        destruct (H3 eq_refl) as [H4 H5]. clear H3.
        split; [|split].
        -- apply no_ws_run_cons; [exact H1|]. intros Hc.
           apply H4. exact (no_ws_run_cons_inv _ _ Hrun Hc).
        -- apply no_trailing_ws_cons; [exact H2|]. intros Hr.
           destruct (H5 Hr) as [->|Ht].
           ++ exact (no_trailing_ws_last _ Htrail).
           ++ destruct (isspace c) eqn:Hc; [|reflexivity].
              rewrite (no_ws_run_cons_inv _ _ Hrun Hc) in Ht. discriminate.
        -- intros _. split; [tauto|]. discriminate.
    + subst r. cbn [replace_go].
      destruct (IH k Hrun' Htrail') as [H1 [H2 _]].
      split; [exact H1|]. split; [exact H2|]. discriminate.
Qed.

Lemma replace_normalized (c0 : ascii) (q s : str) :
  isspace c0 = true ->
  ws_normalized s = true ->
  ws_normalized (replace (c0 :: q) [] s) = true.
Proof.
  intros Hc0 Hs. apply ws_normalized_elim in Hs. destruct Hs as [H1 [H2 H3]].
  destruct (replace_go_normalized c0 q s Hc0 0%nat H1 H3) as [R1 [R2 R3]].
  destruct (R3 eq_refl) as [R4 _].
  apply ws_normalized_intro; [exact R1|exact (R4 H2)|exact R2].
Qed.

(** *** [join] with a space *)

Lemma no_ws_run_app (x y : str) :
  x <> [] -> no_ws_run x = true -> no_trailing_ws x = true ->
  no_ws_run y = true -> no_ws_run (x ++ y) = true.
Proof.
  intros Hx Hrun Htrail Hy. induction x as [|c x IH]; [congruence|].
  destruct x as [|d x].
  - cbn [app]. apply no_ws_run_cons; [exact Hy|]. intros Hc.
    rewrite (no_trailing_ws_last _ Htrail) in Hc. discriminate.
  - change ((c :: d :: x) ++ y) with (c :: (d :: x) ++ y).
    apply no_ws_run_cons.
    + apply IH; [discriminate|exact (no_ws_run_tail _ _ Hrun)|
                 exact (no_trailing_ws_tail _ _ Htrail)].
    + intros Hc. exact (no_ws_run_cons_inv _ _ Hrun Hc).
Qed.

Lemma no_trailing_ws_app (x y : str) :
  y <> [] -> no_trailing_ws y = true -> no_trailing_ws (x ++ y) = true.
Proof.
  intros Hy Ht. induction x as [|c x IH]; [exact Ht|].
  cbn [app]. apply no_trailing_ws_cons; [exact IH|].
  intros E. apply app_eq_nil in E. tauto.
Qed.

Lemma join_sp_normalized (parts : list str) :
  Forall (fun p => ws_normalized p = true /\ p <> []) parts ->
  ws_normalized (join [sp] parts) = true
  /\ (parts <> [] -> join [sp] parts <> []).
Proof.
  induction 1 as [|x parts [Hx Hne] Hparts IH]; [split; [reflexivity|congruence]|].
  destruct parts as [|y parts]; [split; [exact Hx|intros _; exact Hne]|].
  change (join [sp] (x :: y :: parts)) with (x ++ sp :: join [sp] (y :: parts)).
  destruct IH as [IH1 IH2]. specialize (IH2 ltac:(discriminate)).
  apply ws_normalized_elim in Hx, IH1.
  destruct Hx as [X1 [X2 X3]], IH1 as [J1 [J2 J3]].
  split.
  - apply ws_normalized_intro.
    + apply no_ws_run_app; [exact Hne|exact X1|exact X3|].
      apply no_ws_run_cons; [exact J1|]. intros _. exact J2.
    + destruct x; [congruence|exact X2].
    + apply no_trailing_ws_app; [discriminate|].
      apply no_trailing_ws_cons; [exact J3|]. intros E. congruence.
  - intros _ E. apply app_eq_nil in E. destruct E as [_ E]. discriminate.
Qed.

(** *** Truncation *)

Lemma take_no_leading (k : nat) (s : str) :
  no_leading_ws s = true -> no_leading_ws (take k s) = true.
Proof. destruct k, s; auto. Qed.

Lemma take_no_run (k : nat) (s : str) :
  no_ws_run s = true -> no_ws_run (take k s) = true.
Proof.
  revert k. induction s as [|c t IH]; intros k H; [destruct k; reflexivity|].
  destruct k as [|k]; [reflexivity|].
  change (take (S k) (c :: t)) with (c :: take k t).
  apply no_ws_run_cons; [apply IH; exact (no_ws_run_tail _ _ H)|].
  intros Hc. apply take_no_leading. exact (no_ws_run_cons_inv _ _ H Hc).
Qed.

Lemma py_slice_to_short (j : Z) (s : str) :
  0 <= j -> len (py_slice_to j s) < j -> py_slice_to j s = s.
Proof.
  unfold py_slice_to, len. intros Hj.
  destruct (Z.ltb_spec j 0) as [?|_]; [lia|].
  rewrite length_take. intros H. apply take_ge. lia.
Qed.

End NormalisationClosure.

(** ** The structural extractor *)

Section Extractor.

Lemma fold_left_invariant {A B : Type} (I : A -> Prop) (g : A -> B -> A)
    (l : list B) (acc : A) :
  I acc -> (forall acc x, I acc -> I (g acc x)) -> I (fold_left g l acc).
Proof.
  intros H Hg. revert acc H.
  induction l as [|x l IH]; intros acc H; [exact H|].
  apply IH, Hg, H.
Qed.

Lemma clean_text_part (raw : str) :
  truthy (clean_text raw) = true -> normal_part (clean_text raw).
Proof.
  intros H. split; [apply clean_text_normalized|apply truthy_true, H].
Qed.

Lemma extract_title_normalized (soup : Soup) : normal (extract_title soup).
Proof.
  unfold extract_title. destruct (h1_text soup) as [t|].
  - apply clean_text_normalized.
  - destruct (title_text soup) as [t|]; [|reflexivity].
    apply (replace_normalized " "%char (lit "| DBS Singapore"));
      [reflexivity|apply clean_text_normalized].
Qed.

Lemma extract_steps_normalized (soup : Soup) :
  Forall normal (extract_steps soup).
Proof.
  unfold extract_steps. apply fold_left_invariant; [constructor|].
  intros acc raw Hacc. destruct (_ && _); [|exact Hacc].
  apply Forall_app. split; [exact Hacc|].
  constructor; [apply clean_text_normalized|constructor].
Qed.

Lemma extract_notes_normalized (soup : Soup) :
  Forall normal (extract_notes soup).
Proof.
  unfold extract_notes. apply fold_left_invariant; [constructor|].
  intros acc raw Hacc. destruct (_ && _); [|exact Hacc].
  apply Forall_app. split; [exact Hacc|].
  constructor; [apply clean_text_normalized|constructor].
Qed.

Lemma answer_walk_parts (siblings : list Sibling) (answer_parts : list str) :
  Forall normal_part answer_parts ->
  Forall normal_part (answer_walk answer_parts siblings).
Proof.
  revert answer_parts.
  induction siblings as [|sibling rest IH]; intros parts Hparts;
    cbn [answer_walk]; [exact Hparts|].
  destruct (name_in _ sibling); [exact Hparts|].
  destruct (truthy (clean_text (text sibling))) eqn:Ht; cbn [negb];
    [|exact Hparts].
  destruct (question_like _); [exact Hparts|].
  assert (Hnew : Forall normal_part (parts ++ [clean_text (text sibling)])).
  { apply Forall_app. split; [exact Hparts|].
    constructor; [apply clean_text_part, Ht|constructor]. }
  destruct (_ >=? _); [exact Hnew|apply IH, Hnew].
Qed.

Lemma content_walk_parts (siblings : list Sibling) (content_parts : list str) :
  Forall normal_part content_parts ->
  Forall normal_part (content_walk content_parts siblings).
Proof.
  revert content_parts.
  induction siblings as [|sibling rest IH]; intros parts Hparts;
    cbn [content_walk]; [exact Hparts|].
  destruct (name_in _ sibling); [exact Hparts|].
  destruct (truthy (clean_text (text sibling))) eqn:Ht; cbn [andb];
    [|apply IH, Hparts].
  destruct (_ >? _); [|apply IH, Hparts].
  apply IH, Forall_app. split; [exact Hparts|].
  constructor; [apply clean_text_part, Ht|constructor].
Qed.

Lemma extract_faq_pairs_normalized (soup : Soup) :
  Forall (fun p => normal (question p) /\ normal (answer p))
    (extract_faq_pairs soup).
Proof.
  unfold extract_faq_pairs. apply fold_left_invariant; [constructor|].
  intros acc el Hacc. destruct (question_like _); [|exact Hacc].
  pose proof (answer_walk_parts (snd el) [] ltac:(constructor)) as Hw.
  destruct (answer_walk [] (snd el)) as [|x parts]; [exact Hacc|].
  apply Forall_app. split; [exact Hacc|].
  constructor; [|constructor]. cbn [question answer].
  split; [apply clean_text_normalized|].
  apply (join_sp_normalized (x :: parts) Hw).
Qed.

Lemma extract_sections_normalized (soup : Soup) :
  Forall (fun s => normal (heading s) /\ normal (content s))
    (extract_sections soup).
Proof.
  unfold extract_sections. apply fold_left_invariant; [constructor|].
  intros acc el Hacc. destruct (_ || _); [exact Hacc|].
  pose proof (content_walk_parts (snd el) [] ltac:(constructor)) as Hw.
  destruct (content_walk [] (snd el)) as [|x parts]; [exact Hacc|].
  apply Forall_app. split; [exact Hacc|].
  constructor; [|constructor]. cbn [heading content].
  split; [apply clean_text_normalized|].
  apply (join_sp_normalized (x :: parts) Hw).
Qed.

Lemma extract_full_text_normalized (soup : Soup) :
  normal (extract_full_text soup).
Proof.
  unfold extract_full_text. destruct (main_text soup);
    [apply clean_text_normalized|reflexivity].
Qed.

(** C4, as the code has it.  In the record built by
    [extract_page_content] the title, every step, every FAQ question and
    answer, every section heading and content and every note is
    normalised: no two white-space characters in a row, none at either
    end.  The full text is the first 15000 characters of a normalised
    text: it has no run of white space and none in front, and it is
    normalised when shorter than 15000 characters. *)
Theorem extracted_fields_normalized (soup : Soup) (url category now : str) :
  let a := extract_page_content soup url category now in
  Forall (fun s => ws_normalized s = true) (structured_fields a)
  /\ (exists t, ws_normalized t = true /\ full_text a = py_slice_to 15000 t)
  /\ no_ws_run (full_text a) = true
  /\ no_leading_ws (full_text a) = true
  /\ (len (full_text a) < 15000 -> ws_normalized (full_text a) = true).
Proof.
  intros a. subst a. unfold structured_fields.
  cbn [extract_page_content title steps faq_pairs sections notes full_text].
  pose proof (extract_full_text_normalized soup) as Hft.
  destruct (ws_normalized_elim _ Hft) as [F1 [F2 F3]].
  split; [|split; [|split; [|split]]].
  - constructor; [apply extract_title_normalized|].
    rewrite !Forall_app. repeat split.
    + apply extract_steps_normalized.
    + rewrite Forall_flat_map.
      eapply List.Forall_impl; [|apply extract_faq_pairs_normalized].
      intros p [Hq Ha]. repeat constructor; assumption.
    + rewrite Forall_flat_map.
      eapply List.Forall_impl; [|apply extract_sections_normalized].
      intros s [Hh Hc]. repeat constructor; assumption.
    + apply extract_notes_normalized.
  - exists (extract_full_text soup). split; [exact Hft|reflexivity].
  - unfold py_slice_to. apply take_no_run, F1.
  - unfold py_slice_to. apply take_no_leading, F2.
  - intros Hlen. rewrite py_slice_to_short; [exact Hft|lia|exact Hlen].
Qed.

Lemma extracted_fields_normalized_witness :
  let a := extract_page_content small_page
             (lit "https://www.dbs.com.sg/personal/support/bank-paynow.html")
             (lit "Banking - PayNow") (lit "2024-01-01T00:00:00") in
  len (full_text a) < 15000 /\ ws_normalized (full_text a) = true.
Proof.
  split; [reflexivity|].
  apply (extracted_fields_normalized small_page
           (lit "https://www.dbs.com.sg/personal/support/bank-paynow.html")
           (lit "Banking - PayNow") (lit "2024-01-01T00:00:00")).
  reflexivity.
Defined.

(** C4 as stated fails for the full text: the text of the main region is
    cut at 15000 characters after it is cleaned, and the cut can fall
    just after a space. *)
Lemma truncated_full_text_ends_in_space :
  let a := extract_page_content long_page
             (lit "https://www.dbs.com.sg/personal/support/home.html")
             (lit "General") (lit "2024-01-01T00:00:00") in
  len (full_text a) = 15000
  /\ no_trailing_ws (full_text a) = false
  /\ ws_normalized (full_text a) = false.
Proof. vm_compute. repeat split; reflexivity. Qed.

End Extractor.

(** * Further properties *)

(** ** [clean_text] *)

Section CleanText.

Lemma sub_ws_plain (b : bool) (t : str) : only_plain_spaces (sub_ws b t) = true.
Proof.
  revert b. induction t as [|c t IH]; intros b; cbn [sub_ws]; [reflexivity|].
  destruct (isspace c) eqn:Hc.
  - destruct b; [apply IH|].
    change (only_plain_spaces (sp :: sub_ws true t))
      with (only_plain_spaces (sub_ws true t)).
    apply IH.
  - change (only_plain_spaces (c :: sub_ws false t))
      with ((negb (isspace c) || Ascii.eqb c sp) && only_plain_spaces (sub_ws false t)).
    rewrite Hc, IH. reflexivity.
Qed.

Lemma lstrip_forallb (P : ascii -> bool) (s : str) :
  forallb P s = true -> forallb P (lstrip s) = true.
Proof.
  induction s as [|c t IH]; cbn [lstrip]; [reflexivity|].
  intros H. destruct (isspace c); [|exact H].
  cbn [forallb] in H. apply andb_true_iff in H. apply IH. tauto.
Qed.

Lemma rstrip_forallb (P : ascii -> bool) (s : str) :
  forallb P s = true -> forallb P (rstrip s) = true.
Proof.
  induction s as [|c t IH]; cbn [rstrip]; [reflexivity|].
  intros H. cbn [forallb] in H. apply andb_true_iff in H. destruct H as [Hc Ht].
  specialize (IH Ht). destruct (rstrip t) as [|d r].
  - destruct (isspace c); [reflexivity|]. cbn [forallb]. rewrite Hc. reflexivity.
  - cbn [forallb] in *. rewrite Hc, IH. reflexivity.
Qed.

Lemma clean_text_plain (s : str) : only_plain_spaces (clean_text s) = true.
Proof.
  unfold clean_text, strip, only_plain_spaces.
  apply lstrip_forallb, rstrip_forallb, sub_ws_plain.
Qed.

Lemma lstrip_fixed (s : str) : no_leading_ws s = true -> lstrip s = s.
Proof.
  destruct s as [|c t]; [reflexivity|]. cbn [no_leading_ws lstrip].
  destruct (isspace c); [discriminate|reflexivity].
Qed.

Lemma strip_fixed (s : str) :
  no_leading_ws s = true -> no_trailing_ws s = true -> strip s = s.
Proof.
  intros H1 H2. unfold strip. rewrite (rstrip_fixed s H2). apply lstrip_fixed, H1.
Qed.

Lemma strip_trimmed (s : str) :
  no_leading_ws (strip s) = true /\ no_trailing_ws (strip s) = true.
Proof.
  unfold strip. split; [apply lstrip_no_leading|].
  apply lstrip_no_trailing, rstrip_no_trailing.
Qed.

Lemma strip_idempotent (s : str) : strip (strip s) = strip s.
Proof. destruct (strip_trimmed s). apply strip_fixed; assumption. Qed.

Lemma sub_ws_fixed (b : bool) (t : str) :
  only_plain_spaces t = true -> no_ws_run t = true ->
  (b = true -> no_leading_ws t = true) ->
  sub_ws b t = t.
Proof.
  revert b. induction t as [|c t IH]; intros b Hp Hr Hb; [reflexivity|].
  cbn [sub_ws].
  change (only_plain_spaces (c :: t))
    with ((negb (isspace c) || Ascii.eqb c sp) && only_plain_spaces t) in Hp.
  apply andb_true_iff in Hp. destruct Hp as [Hc Hp].
  pose proof (no_ws_run_tail _ _ Hr) as Hr'.
  destruct (isspace c) eqn:Ec.
  - cbn [negb orb] in Hc. apply Ascii.eqb_eq in Hc. subst c.
    destruct b.
    + specialize (Hb eq_refl). cbn [no_leading_ws] in Hb.
      rewrite Ec in Hb. discriminate.
    + rewrite (IH true Hp Hr'); [reflexivity|].
      intros _. exact (no_ws_run_cons_inv _ _ Hr Ec).
  - rewrite (IH false Hp Hr'); [reflexivity|discriminate].
Qed.

Lemma sub_ws_length (b : bool) (t : str) :
  (length (sub_ws b t) <= length t)%nat.
Proof.
  revert b. induction t as [|c t IH]; intros b; cbn [sub_ws]; [lia|].
  destruct (isspace c); [destruct b|]; cbn [length];
    [specialize (IH true)|specialize (IH true)|specialize (IH false)]; lia.
Qed.

Lemma sub_ws_blank (b : bool) (t : str) : blank (sub_ws b t) = blank t.
Proof.
  unfold blank. revert b.
  induction t as [|c t IH]; intros b; cbn [sub_ws forallb]; [reflexivity|].
  destruct (isspace c) eqn:Ec; [|cbn [forallb]; rewrite Ec; reflexivity].
  destruct b; [apply IH|]. cbn [forallb andb]. apply IH.
Qed.

(** Cleaning is idempotent: cleaned text is left as it is. *)
Theorem clean_text_idempotent (text : str) :
  clean_text (clean_text text) = clean_text text.
Proof.
  pose proof (ws_normalized_elim _ (clean_text_normalized text)) as [H1 [H2 H3]].
  pose proof (clean_text_plain text) as H4.
  unfold clean_text at 1. unfold re_sub_ws.
  rewrite sub_ws_fixed; [apply strip_fixed; assumption|exact H4|exact H1|discriminate].
Qed.

(** Cleaned text is no longer than the text, holds no white-space
    character but the plain space, and is empty exactly when the text is
    empty or all white space. *)
Theorem clean_text_shape (text : str) :
  len (clean_text text) <= len text
  /\ only_plain_spaces (clean_text text) = true
  /\ (clean_text text = [] <-> blank text = true).
Proof.
  split; [|split].
  - unfold clean_text, re_sub_ws.
    pose proof (strip_len (sub_ws false text)).
    pose proof (sub_ws_length false text). unfold len in *. lia.
  - apply clean_text_plain.
  - unfold clean_text, re_sub_ws. rewrite <- truthy_false, strip_nil_blank.
    rewrite sub_ws_blank. destruct (blank text); simpl; split; congruence.
Qed.

Lemma clean_text_shape_witness :
  clean_text (lit "  ") = [] /\ blank (lit "  ") = true.
Proof.
  split; [|reflexivity].
  apply (proj2 (proj2 (clean_text_shape (lit "  ")))). reflexivity.
Defined.

End CleanText.

(** ** The sentence splitter *)

Section Splitter.

Lemma ink_app (x y : str) : ink (x ++ y) = ink x ++ ink y.
Proof. unfold ink. apply List.filter_app. Qed.

Lemma ink_space (c : ascii) (t : str) : isspace c = true -> ink (c :: t) = ink t.
Proof. intros H. unfold ink. cbn [List.filter]. rewrite H. reflexivity. Qed.

Lemma split_go_ink (text : str) :
  (forall after piece,
     ink (concat (split_go (Body after) piece text)) = ink (rev piece ++ text))
  /\ ink (concat (split_go Gap [] text)) = ink text.
Proof.
  induction text as [|c t [IHb IHg]].
  - split; [intros after piece|]; cbn [split_go concat];
      rewrite ?app_nil_r; reflexivity.
  - split; [intros after piece|]; cbn [split_go].
    + destruct (after && isspace c) eqn:E.
      * apply andb_true_iff in E. destruct E as [_ E].
        cbn [concat]. rewrite !ink_app, IHg, (ink_space c t E). reflexivity.
      * rewrite IHb. cbn [rev]. rewrite <- app_assoc. reflexivity.
    + destruct (isspace c) eqn:E.
      * rewrite IHg, (ink_space c t E). reflexivity.
      * rewrite IHb. reflexivity.
Qed.

Lemma ends_with_terminator_last (x : str) (c : ascii) :
  ends_with_terminator (x ++ [c]) = is_terminator c.
Proof.
  induction x as [|d x IH]; [reflexivity|].
  cbn [app ends_with_terminator]. destruct (x ++ [c]) eqn:E; [|exact IH].
  destruct x; discriminate.
Qed.

Lemma split_go_boundaries (text : str) :
  (forall after piece,
     (after = true -> ends_with_terminator (rev piece) = true) ->
     exists init last,
       split_go (Body after) piece text = init ++ [last]
       /\ Forall (fun p => ends_with_terminator p = true) init)
  /\ exists init last,
       split_go Gap [] text = init ++ [last]
       /\ Forall (fun p => ends_with_terminator p = true) init.
Proof.
  induction text as [|c t [IHb IHg]].
  - split.
    + intros after piece _. exists [], (rev piece). split; constructor.
    + exists [], []. split; constructor.
  - assert (Hc : is_terminator c = true ->
                 forall piece, ends_with_terminator (rev (c :: piece)) = true).
    { intros H piece. cbn [rev]. rewrite ends_with_terminator_last. exact H. }
    split; [intros after piece Hinv|]; cbn [split_go].
    + destruct (after && isspace c) eqn:E.
      * apply andb_true_iff in E. destruct E as [E _].
        destruct IHg as [init [last [-> Hall]]].
        exists (rev piece :: init), last. split; [reflexivity|].
        constructor; [exact (Hinv E)|exact Hall].
      * apply IHb. intros H. apply Hc, H.
    + destruct (isspace c); [exact IHg|].
      apply IHb. intros H. apply (Hc H []).
Qed.

Lemma split_go_measure (text : str) :
  (forall after piece,
     (list_sum (map (@length ascii) (split_go (Body after) piece text))
      + length (split_go (Body after) piece text)
      <= length piece + length text + 1)%nat)
  /\ (list_sum (map (@length ascii) (split_go Gap [] text))
      + length (split_go Gap [] text) <= length text + 1)%nat.
Proof.
  induction text as [|c t [IHb IHg]].
  - split; [intros after piece|]; cbn [split_go]; unfold list_sum;
      cbn [map fold_right length]; rewrite ?length_rev; cbn [length]; lia.
  - split; [intros after piece|]; cbn [split_go].
    + destruct (after && isspace c).
      * unfold list_sum in *. cbn [map fold_right length].
        rewrite length_rev. lia.
      * specialize (IHb (is_terminator c) (c :: piece)).
        cbn [length] in *. lia.
    + destruct (isspace c).
      * cbn [length]. lia.
      * specialize (IHb (is_terminator c) [c]). cbn [length] in *. lia.
Qed.

(** The split never returns the empty list, and every piece but the last
    ends with a full stop, an exclamation mark or a question mark. *)
Theorem re_split_sentences_boundaries (text : str) :
  exists init last,
    re_split_sentences text = init ++ [last]
    /\ Forall (fun p => ends_with_terminator p = true) init.
Proof.
  apply (proj1 (split_go_boundaries text)). discriminate.
Qed.

(** The split deletes white space only: the characters of the pieces that
    are not white space are those of the text, in order.  Every deleted
    separator has at least one character, so the lengths of the pieces
    and the number of separators add up to at most the length of the
    text. *)
Theorem re_split_sentences_keeps_ink (text : str) :
  ink (concat (re_split_sentences text)) = ink text
  /\ (list_sum (map (@length ascii) (re_split_sentences text))
      + length (re_split_sentences text) <= length text + 1)%nat.
Proof.
  split.
  - apply (proj1 (split_go_ink text) false []).
  - apply (proj1 (split_go_measure text) false []).
Qed.

End Splitter.

(** ** Sentence packing: what the chunks hold *)

Section PackingContent.

Variables max_size overlap : Z.

Lemma strip_cons_space (c : ascii) (s : str) :
  isspace c = true -> strip (c :: s) = strip s.
Proof.
  intros Hc. unfold strip. cbn [rstrip].
  destruct (rstrip s) as [|d r]; rewrite ?Hc; [reflexivity|].
  cbn [lstrip]. rewrite Hc. reflexivity.
Qed.

Lemma py_slice_from_len (i : Z) (s : str) : len (py_slice_from i s) <= len s.
Proof. unfold py_slice_from, len. rewrite length_drop. lia. Qed.

(** One turn of the loop, for any [max_size] and [overlap]: the new
    buffer is the sentence alone, or the sentence joined to the old
    buffer, or the sentence after a tail of the old buffer. *)
Lemma sentence_step_cases (chunks : list str) (buffer raw : str) :
  strip raw <> [] ->
  let st := sentence_step max_size overlap (chunks, buffer) raw in
  (buffer = [] /\ st = (chunks, strip raw))
  \/ (buffer <> [] /\ st = (chunks, strip (buffer ++ [sp] ++ strip raw)))
  \/ (buffer <> [] /\ exists tail,
        len tail <= len buffer
        /\ st = (chunks ++ [strip buffer], tail ++ [sp] ++ strip raw)).
Proof.
  intros Hraw st. subst st. unfold sentence_step.
  apply truthy_true in Hraw. rewrite Hraw. cbn [negb].
  destruct buffer as [|b buffer].
  - left. split; [reflexivity|]. rewrite andb_false_r.
    cbn [app]. rewrite strip_cons_space by reflexivity.
    rewrite strip_idempotent. reflexivity.
  - right. cbn [truthy]. rewrite andb_true_r.
    destruct (_ >? max_size).
    + right. split; [discriminate|]. eexists. split; [|reflexivity].
      destruct (_ >? overlap); [apply py_slice_from_len|lia].
    + left. split; [discriminate|reflexivity].
Qed.

Lemma sentence_step_blank (st : list str * str) (raw : str) :
  strip raw = [] -> sentence_step max_size overlap st raw = st.
Proof.
  intros H. destruct st as [chunks buffer]. unfold sentence_step.
  rewrite H. reflexivity.
Qed.

Lemma sentence_loop_measure (pieces : list str) (chunks : list str)
    (buffer : str) (m : Z) :
  0 <= m ->
  buffer = [] \/ len buffer + 1 <= m ->
  Forall (fun c => len c + 1 <= m) chunks ->
  let st := fold_left (sentence_step max_size overlap) pieces (chunks, buffer) in
  let m' := m + Z.of_nat (list_sum (map (@length ascii) pieces) + length pieces) in
  Forall (fun c => len c + 1 <= m') (fst st)
  /\ (snd st = [] \/ len (snd st) + 1 <= m').
Proof.
  revert chunks buffer m.
  induction pieces as [|raw pieces IH]; intros chunks buffer m Hm Hb Hc.
  - cbn. rewrite Z.add_0_r. split; assumption.
  - cbn [fold_left].
    assert (Hstep :
      let st := sentence_step max_size overlap (chunks, buffer) raw in
      Forall (fun c => len c + 1 <= m + len raw + 1) (fst st)
      /\ (snd st = [] \/ len (snd st) + 1 <= m + len raw + 1)).
    { pose proof (strip_len raw) as Hraw. pose proof (len_nonneg raw).
      assert (Hc' : Forall (fun c => len c + 1 <= m + len raw + 1) chunks).
      { eapply List.Forall_impl; [|exact Hc]. cbv beta. intros; lia. }
      destruct (strip raw) as [|c0 s0] eqn:E.
      - rewrite sentence_step_blank by exact E. cbn [fst snd].
        split; [exact Hc'|]. destruct Hb; [tauto|right; lia].
      - destruct (sentence_step_cases chunks buffer raw) as [[-> ->]|[[Hne ->]|[Hne [tail [Ht ->]]]]];
          [rewrite E; discriminate| | |]; cbn [fst snd]; rewrite ?E in *.
        + split; [exact Hc'|right; lia].
        + split; [exact Hc'|]. right.
          pose proof (strip_len (buffer ++ [sp] ++ c0 :: s0)) as Hl.
          rewrite !len_app in Hl. change (len [sp]) with 1 in Hl.
          destruct Hb; [contradiction|lia].
        + destruct Hb as [Hb|Hb]; [contradiction|]. split.
          * apply Forall_app. split; [exact Hc'|].
            constructor; [|constructor]. pose proof (strip_len buffer). lia.
          * right. rewrite !len_app. change (len [sp]) with 1. lia. }
    destruct (sentence_step max_size overlap (chunks, buffer) raw)
      as [chunks1 buffer1].
    cbn [fst snd] in Hstep. destruct Hstep as [H1 H2].
    pose proof (len_nonneg raw).
    specialize (IH chunks1 buffer1 (m + len raw + 1) ltac:(lia) H2 H1).
    cbv zeta in IH |- *.
    replace (m + Z.of_nat (list_sum (map (@length ascii) (raw :: pieces))
                           + length (raw :: pieces)))
      with (m + len raw + 1
            + Z.of_nat (list_sum (map (@length ascii) pieces) + length pieces)).
    + exact IH.
    + unfold len, list_sum. cbn [map fold_right length]. lia.
Qed.

Lemma sentence_chunks_le_text (text c : str) :
  In c (sentence_chunks text max_size overlap) -> len c <= len text.
Proof.
  unfold sentence_chunks.
  pose proof (sentence_loop_measure (re_split_sentences text) [] [] 0
                ltac:(lia) (or_introl eq_refl) ltac:(constructor)) as H.
  cbv zeta in H.
  pose proof (proj1 (split_go_measure text) false []) as Hm.
  fold (re_split_sentences text) in Hm. cbn [length] in Hm.
  destruct (fold_left _ _ _) as [chunks buffer]. cbn [fst snd] in H.
  destruct H as [H1 H2]. rewrite List.Forall_forall in H1.
  assert (Hin : forall c, In c chunks -> len c <= len text).
  { intros c' Hc'. specialize (H1 c' Hc'). unfold len in *. lia. }
  destruct (truthy (strip buffer)) eqn:E; [|apply Hin].
  rewrite in_app_iff. intros [Hc|[<-|[]]]; [apply Hin, Hc|].
  destruct H2 as [->|H2]; [discriminate|].
  pose proof (strip_len buffer). unfold len in *. lia.
Qed.

End PackingContent.

(** No chunk is longer than the text it comes from, for every
    [max_size] and [overlap]. *)
Theorem chunk_no_longer_than_text (text : str) (max_size overlap : Z) (c : str) :
  In c (chunk_by_sentences text max_size overlap) -> len c <= len text.
Proof.
  unfold chunk_by_sentences. rewrite List.filter_In. intros [Hc _].
  exact (sentence_chunks_le_text max_size overlap text c Hc).
Qed.

Lemma chunk_no_longer_than_text_witness :
  In (sentence 899) (chunk_by_sentences three_long_sentences 1000 150)
  /\ len (sentence 899) <= len three_long_sentences.
Proof.
  assert (H : In (sentence 899)
                (chunk_by_sentences three_long_sentences 1000 150)).
  { vm_compute. left. reflexivity. }
  split; [exact H|].
  exact (chunk_no_longer_than_text three_long_sentences 1000 150 _ H).
Defined.

(** A text shorter than [MIN_CHUNK_SIZE] = 50 characters gives no chunk. *)
Theorem short_text_gives_no_chunk (text : str) (max_size overlap : Z) :
  len text < 50 -> chunk_by_sentences text max_size overlap = [].
Proof.
  intros Hlen.
  destruct (chunk_by_sentences text max_size overlap) as [|c l] eqn:E;
    [reflexivity|].
  assert (Hc : In c (chunk_by_sentences text max_size overlap))
    by (rewrite E; left; reflexivity).
  unfold chunk_by_sentences in Hc. apply List.filter_In in Hc.
  destruct Hc as [Hc Hmin]. apply Z.geb_le in Hmin. unfold MIN_CHUNK_SIZE in Hmin.
  pose proof (sentence_chunks_le_text max_size overlap text c Hc). lia.
Qed.

Lemma short_text_gives_no_chunk_witness :
  chunk_by_sentences (lit "Press OK. Then wait.") 1000 150 = [].
Proof.
  apply (short_text_gives_no_chunk (lit "Press OK. Then wait.") 1000 150).
  reflexivity.
Defined.

Section PackingSentences.

Variables max_size overlap : Z.

Lemma rstrip_keeps_prefix (z y : str) :
  z <> [] -> no_trailing_ws z = true -> rstrip (z ++ y) = z ++ rstrip y.
Proof.
  intros Hz Ht. induction z as [|c z IH]; [congruence|].
  destruct z as [|d z].
  - cbn [app]. apply rstrip_cons_black, no_trailing_ws_last, Ht.
  - change ((c :: d :: z) ++ y) with (c :: (d :: z) ++ y). cbn [rstrip].
    rewrite IH; [|discriminate|exact (no_trailing_ws_tail _ _ Ht)].
    reflexivity.
Qed.

Lemma lstrip_keeps_suffix (x z : str) :
  z <> [] -> no_leading_ws z = true -> exists x', lstrip (x ++ z) = x' ++ z.
Proof.
  intros Hz Hl. induction x as [|c x IH].
  - exists []. apply lstrip_fixed, Hl.
  - cbn [app lstrip]. destruct (isspace c); [exact IH|].
    exists (c :: x). reflexivity.
Qed.

Lemma strip_keeps_occurrence (s b : str) :
  s <> [] -> no_leading_ws s = true -> no_trailing_ws s = true ->
  occurs_in s b -> occurs_in s (strip b).
Proof.
  intros Hne Hl Ht [x [y ->]]. unfold strip.
  rewrite app_assoc, rstrip_keeps_prefix.
  - rewrite <- app_assoc.
    destruct (lstrip_keeps_suffix x (s ++ rstrip y)) as [x' Hx'].
    + destruct s; [congruence|discriminate].
    + destruct s; [congruence|exact Hl].
    + exists x', (rstrip y). exact Hx'.
  - destruct x, s; try congruence; discriminate.
  - apply no_trailing_ws_app; assumption.
Qed.

Lemma occurs_in_app_l (s b y : str) : occurs_in s b -> occurs_in s (b ++ y).
Proof.
  intros [x [z ->]]. exists x, (z ++ y). rewrite <- !app_assoc. reflexivity.
Qed.

Lemma occurs_in_nonempty (s b : str) : s <> [] -> occurs_in s b -> b <> [].
Proof.
  intros Hs [x [y ->]] E. apply app_eq_nil in E. destruct E as [_ E].
  apply app_eq_nil in E. tauto.
Qed.

(** A sentence met so far sits in a closed chunk or in the buffer. *)
Lemma sentence_step_keeps (s : str) (chunks : list str) (buffer raw : str) :
  s <> [] -> no_leading_ws s = true -> no_trailing_ws s = true ->
  (exists c, In c chunks /\ occurs_in s c) \/ occurs_in s buffer ->
  let st := sentence_step max_size overlap (chunks, buffer) raw in
  (exists c, In c (fst st) /\ occurs_in s c) \/ occurs_in s (snd st).
Proof.
  intros Hne Hl Ht Hcov st. subst st.
  destruct (strip raw) as [|c0 s0] eqn:E.
  - rewrite sentence_step_blank by exact E. exact Hcov.
  - destruct (sentence_step_cases max_size overlap chunks buffer raw)
      as [[-> ->]|[[Hb ->]|[Hb [tail [_ ->]]]]];
      [rewrite E; discriminate| | |]; cbn [fst snd].
    + destruct Hcov as [Hcov|Hcov]; [left; exact Hcov|].
      exfalso. exact (occurs_in_nonempty s [] Hne Hcov eq_refl).
    + destruct Hcov as [Hcov|Hcov]; [left; exact Hcov|]. right.
      apply strip_keeps_occurrence; try assumption.
      apply occurs_in_app_l, Hcov.
    + left. destruct Hcov as [[c [Hc Hs]]|Hcov].
      * exists c. split; [apply in_app_iff; left; exact Hc|exact Hs].
      * exists (strip buffer). split; [apply in_app_iff; right; left; reflexivity|].
        apply strip_keeps_occurrence; assumption.
Qed.

Lemma sentence_step_takes (chunks : list str) (buffer raw : str) :
  strip raw <> [] ->
  occurs_in (strip raw) (snd (sentence_step max_size overlap (chunks, buffer) raw)).
Proof.
  intros Hraw. destruct (strip_trimmed raw) as [Hl Ht].
  destruct (sentence_step_cases max_size overlap chunks buffer raw Hraw)
    as [[-> ->]|[[Hb ->]|[Hb [tail [_ ->]]]]]; cbn [snd].
  - exists [], []. rewrite app_nil_r. reflexivity.
  - apply strip_keeps_occurrence; try assumption.
    exists (buffer ++ [sp]), []. rewrite app_nil_r, <- app_assoc. reflexivity.
  - exists (tail ++ [sp]), []. rewrite app_nil_r, <- app_assoc. reflexivity.
Qed.

Lemma sentence_loop_keeps (s : str) (pieces : list str) (st : list str * str) :
  s <> [] -> no_leading_ws s = true -> no_trailing_ws s = true ->
  (exists c, In c (fst st) /\ occurs_in s c) \/ occurs_in s (snd st) ->
  let st' := fold_left (sentence_step max_size overlap) pieces st in
  (exists c, In c (fst st') /\ occurs_in s c) \/ occurs_in s (snd st').
Proof.
  intros Hne Hl Ht. revert st.
  induction pieces as [|raw pieces IH]; intros st Hcov; [exact Hcov|].
  cbn [fold_left]. apply IH. destruct st as [chunks buffer].
  apply sentence_step_keeps; assumption.
Qed.

Lemma sentence_loop_takes (s : str) (pieces : list str) (st : list str * str) :
  In s (List.filter truthy (map strip pieces)) ->
  let st' := fold_left (sentence_step max_size overlap) pieces st in
  (exists c, In c (fst st') /\ occurs_in s c) \/ occurs_in s (snd st').
Proof.
  revert st. induction pieces as [|raw pieces IH]; intros st Hs;
    [destruct Hs|].
  cbn [map List.filter] in Hs. cbn [fold_left].
  destruct (truthy (strip raw)) eqn:E; [|apply IH, Hs].
  destruct Hs as [<-|Hs]; [|apply IH, Hs].
  destruct (strip_trimmed raw) as [Hl Ht]. apply truthy_true in E.
  apply sentence_loop_keeps; try assumption.
  right. destruct st as [chunks buffer]. apply sentence_step_takes, E.
Qed.

Lemma sentence_chunks_hold (text s : str) :
  In s (sentence_units text) ->
  exists c, In c (sentence_chunks text max_size overlap) /\ occurs_in s c.
Proof.
  intros Hs. pose proof (sentence_unit_trimmed text s Hs) as [Hne [Hl Ht]].
  unfold sentence_units in Hs. unfold sentence_chunks.
  pose proof (sentence_loop_takes s (re_split_sentences text) ([], []) Hs) as H.
  cbv zeta in H. destruct (fold_left _ _ _) as [chunks buffer].
  cbn [fst snd] in H. destruct H as [[c [Hc Ho]]|Ho].
  - exists c. split; [|exact Ho].
    destruct (truthy _); [apply in_app_iff; left|]; exact Hc.
  - pose proof (strip_keeps_occurrence s buffer Hne Hl Ht Ho) as Ho'.
    pose proof (occurs_in_nonempty s _ Hne Ho') as Hb.
    apply truthy_true in Hb. rewrite Hb.
    exists (strip buffer). split; [|exact Ho'].
    apply in_app_iff. right. left. reflexivity.
Qed.

Lemma sentence_loop_blank (pieces : list str) (st : list str * str) :
  List.filter truthy (map strip pieces) = [] ->
  fold_left (sentence_step max_size overlap) pieces st = st.
Proof.
  revert st. induction pieces as [|raw pieces IH]; intros st H; [reflexivity|].
  cbn [map List.filter] in H. cbn [fold_left].
  destruct (truthy (strip raw)) eqn:E; [discriminate|].
  apply truthy_false in E. rewrite sentence_step_blank by exact E.
  apply IH, H.
Qed.

Lemma sentence_loop_single (pieces : list str) (s : str) :
  List.filter truthy (map strip pieces) = [s] ->
  fold_left (sentence_step max_size overlap) pieces ([], []) = ([], s).
Proof.
  induction pieces as [|raw pieces IH]; intros H; [discriminate|].
  cbn [map List.filter] in H. cbn [fold_left].
  destruct (truthy (strip raw)) eqn:E.
  - injection H as Hs Hrest. subst s. apply truthy_true in E.
    destruct (sentence_step_cases max_size overlap [] [] raw E)
      as [[_ ->]|[[Hb _]|[Hb _]]]; try congruence.
    apply sentence_loop_blank, Hrest.
  - apply truthy_false in E. rewrite sentence_step_blank by exact E.
    apply IH, H.
Qed.

End PackingSentences.

(** No sentence is lost by the packing loop: every sentence unit of the
    text occurs, whole, in one of the chunks built by the loop.  Only the
    final filter, which drops chunks shorter than 50 characters, can lose
    text. *)
Theorem packing_loses_no_sentence (text : str) (max_size overlap : Z) (s : str) :
  In s (sentence_units text) ->
  exists c x y,
    In c (sentence_chunks text max_size overlap) /\ c = x ++ s ++ y.
Proof.
  intros Hs.
  destruct (sentence_chunks_hold max_size overlap text s Hs) as [c [Hc [x [y Ho]]]].
  exists c, x, y. split; assumption.
Qed.

Lemma packing_loses_no_sentence_witness :
  exists c x y,
    In c (sentence_chunks three_long_sentences 1000 150)
    /\ c = x ++ sentence 899 ++ y.
Proof.
  apply (packing_loses_no_sentence three_long_sentences 1000 150).
  vm_compute. left. reflexivity.
Defined.

(** A text with a single sentence unit is never split: it is returned as
    one chunk, the unit itself, whatever [max_size] is, and as no chunk
    when the unit has fewer than 50 characters. *)
Theorem single_sentence_is_one_chunk (text : str) (max_size overlap : Z) (s : str) :
  sentence_units text = [s] ->
  chunk_by_sentences text max_size overlap
  = if len s >=? 50 then [s] else [].
Proof.
  intros Hs.
  assert (Hin : In s (sentence_units text)) by (rewrite Hs; left; reflexivity).
  destruct (sentence_unit_trimmed text s Hin) as [Hne [Hl Ht]].
  unfold chunk_by_sentences, sentence_chunks.
  unfold sentence_units in Hs.
  rewrite (sentence_loop_single max_size overlap _ s Hs).
  rewrite (strip_fixed s Hl Ht). apply truthy_true in Hne. rewrite Hne.
  reflexivity.
Qed.

Lemma single_sentence_is_one_chunk_witness :
  chunk_by_sentences (sentence 1499) 1000 150 = [sentence 1499].
Proof.
  apply (single_sentence_is_one_chunk (sentence 1499) 1000 150 (sentence 1499)).
  vm_compute. reflexivity.
Defined.

(** ** The chunker: order, notes, sizes, metadata *)

Section ChunkerMore.

Variable a : Article.

Lemma typed_map_repeat (t : string) (l : list Document) :
  Forall (fun d => chunk_type d = Some (lit t)) l ->
  map chunk_type l = repeat (Some (lit t)) (length l).
Proof.
  induction 1 as [|d l Hd _ IH]; [reflexivity|].
  cbn [map length repeat]. rewrite Hd, IH. reflexivity.
Qed.

Lemma note_items_filter (l : list str) :
  flat_map (note_items a) l =
  map (note_doc a) (List.filter (fun n => len n >=? 50) l).
Proof.
  induction l as [|n l IH]; [reflexivity|].
  cbn [flat_map List.filter]. unfold note_items at 1, MIN_CHUNK_SIZE.
  destruct (len n >=? 50); cbn [map app]; rewrite IH; reflexivity.
Qed.

Lemma rstrip_snoc_space (x : str) (c : ascii) :
  isspace c = true -> rstrip (x ++ [c]) = rstrip x.
Proof.
  intros Hc. induction x as [|d x IH]; cbn [app rstrip].
  - rewrite Hc. reflexivity.
  - rewrite IH. reflexivity.
Qed.

Lemma strip_line_len (x : str) : len (strip (x ++ [nl])) <= len x.
Proof.
  unfold strip. rewrite rstrip_snoc_space by reflexivity.
  pose proof (lstrip_length (rstrip x)). pose proof (rstrip_length x).
  unfold len. lia.
Qed.

Lemma group_steps_bound (limit : Z) (l : list str) (buffer x : str) :
  let bound := Z.max 1000 (len (context_prefix a) + 30 + limit) in
  buffer = x ++ [nl] ->
  len x <= bound ->
  Forall (fun s => len s <= limit) l ->
  Forall (fun g => len (strip g) <= bound)
    (group_steps (context_prefix a) buffer l).
Proof.
  intros bound Hb Hx Hl. revert buffer x Hb Hx.
  induction Hl as [|step l Hstep _ IH]; intros buffer x Hb Hx;
    cbn [group_steps].
  - destruct (_ >? _); constructor; [|constructor].
    subst buffer. pose proof (strip_line_len x). lia.
  - destruct (_ && _) eqn:E.
    + constructor.
      * subst buffer. pose proof (strip_line_len x). lia.
      * apply (IH _ (context_prefix a ++ lit "How to (continued):" ++ [nl] ++ step)).
        -- rewrite <- !app_assoc. reflexivity.
        -- rewrite !len_app. change (len (lit "How to (continued):")) with 19.
           change (len [nl]) with 1. subst bound. lia.
    + apply (IH _ (buffer ++ step)).
      * rewrite <- !app_assoc. reflexivity.
      * subst buffer. rewrite !len_app in *. change (len [nl]) with 1 in *.
        apply andb_false_iff in E. subst bound.
        destruct E as [E|E];
          [destruct (Z.gtb_spec (len x + 1 + len step) 1000)
          |destruct (Z.gtb_spec (len x + 1) (len (context_prefix a) + 30))];
          try discriminate; lia.
Qed.

Lemma steps_items_bound (limit : Z) :
  Forall (fun s => len s <= limit) (steps a) ->
  Forall (fun d => len (page_content d)
                   <= Z.max 1000 (len (context_prefix a) + 30 + limit))
    (steps_items a).
Proof.
  intros Hl. unfold steps_items. destruct (steps a) as [|s l] eqn:E;
    [constructor|].
  rewrite Forall_map. cbn [steps_doc page_content].
  apply (group_steps_bound limit (s :: l) _
           (context_prefix a ++ lit "How to (step-by-step):")).
  - rewrite <- app_assoc. reflexivity.
  - rewrite len_app. change (len (lit "How to (step-by-step):")) with 22.
    inversion Hl; subst. pose proof (len_nonneg s). lia.
  - exact Hl.
Qed.

Lemma typed_items_only (t : string) (d : Document) :
  In d (create_langchain_docs_from_article a) ->
  chunk_type d = Some (lit t) ->
  In d (List.filter (has_type t) (create_langchain_docs_from_article a)).
Proof.
  intros Hin Ht. apply List.filter_In. split; [exact Hin|].
  unfold has_type. apply bool_decide_true, Ht.
Qed.

Lemma chunk_by_sentences_short (text : str) (max_size overlap : Z) :
  len text < 50 -> chunk_by_sentences text max_size overlap = [].
Proof.
  intros Hlen.
  destruct (chunk_by_sentences text max_size overlap) as [|c l] eqn:E;
    [reflexivity|].
  assert (Hc : In c (chunk_by_sentences text max_size overlap))
    by (rewrite E; left; reflexivity).
  unfold chunk_by_sentences in Hc. apply List.filter_In in Hc.
  destruct Hc as [Hc Hmin]. apply Z.geb_le in Hmin. unfold MIN_CHUNK_SIZE in Hmin.
  pose proof (sentence_chunks_le_text max_size overlap text c Hc). lia.
Qed.

End ChunkerMore.

(** The chunks of an article come in the order of the strategies: the
    [faq] chunks, then the [steps] chunks, then the [section] chunks,
    then the [text] chunks, then the [note] chunks. *)
Theorem chunk_types_in_strategy_order (a : Article) :
  exists n1 n2 n3 n4 n5 : nat,
    map chunk_type (create_langchain_docs_from_article a)
    = repeat (Some (lit "faq")) n1 ++ repeat (Some (lit "steps")) n2
      ++ repeat (Some (lit "section")) n3 ++ repeat (Some (lit "text")) n4
      ++ repeat (Some (lit "note")) n5.
Proof.
  rewrite create_items, structured_docs_items. rewrite !map_app.
  rewrite (typed_map_repeat "faq" _ (faq_items_typed a _)).
  rewrite (typed_map_repeat "steps" _ (steps_items_typed a)).
  rewrite (typed_map_repeat "section" _ (section_items_typed a _)).
  rewrite (typed_map_repeat "text" _ (fallback_items_typed a)).
  rewrite (typed_map_repeat "note" _ (note_items_typed a _)).
  do 5 eexists. rewrite <- !app_assoc. reflexivity.
Qed.

(** The [note] chunks of an article are, in order, one chunk
    "Important: note" under the context line for each note of 50
    characters or more; a shorter note gives no chunk. *)
Theorem note_chunks_need_50_characters (a : Article) :
  List.filter (has_type "note") (create_langchain_docs_from_article a)
  = map (fun n => {| page_content :=
                       context_prefix a ++ lit "Important: " ++ n;
                     metadata := plain_metadata a "note" |})
      (List.filter (fun n => len n >=? 50) (notes a)).
Proof.
  rewrite create_items, structured_docs_items.
  filter_by_type. rewrite !app_nil_l. apply note_items_filter.
Qed.

(** A [steps] chunk has at most 1000 characters, unless a step forces it
    over: when [limit] bounds the length of every step, a [steps] chunk
    has at most [max 1000 (len context_prefix + 30 + limit)]
    characters. *)
Theorem steps_chunk_bound (a : Article) (limit : Z) (d : Document) :
  Forall (fun s => len s <= limit) (steps a) ->
  In d (create_langchain_docs_from_article a) ->
  chunk_type d = Some (lit "steps") ->
  len (page_content d) <= Z.max 1000 (len (context_prefix a) + 30 + limit).
Proof.
  intros Hl Hin Ht.
  pose proof (typed_items_only a "steps" d Hin Ht) as Hf.
  rewrite create_items, structured_docs_items in Hf.
  revert Hf. filter_by_type. rewrite !app_nil_l, !app_nil_r. intros Hf.
  pose proof (steps_items_bound a limit Hl) as Hb.
  rewrite List.Forall_forall in Hb. apply Hb, Hf.
Qed.

Lemma steps_chunk_bound_witness :
  let a := two_long_steps_article in
  let d := steps_doc a (context_prefix a ++ lit "How to (step-by-step):"
                        ++ [nl] ++ sentence 599 ++ [nl]) in
  In d (create_langchain_docs_from_article a)
  /\ len (page_content d) <= Z.max 1000 (len (context_prefix a) + 30 + 600).
Proof.
  assert (H : In (steps_doc two_long_steps_article
                    (context_prefix two_long_steps_article
                     ++ lit "How to (step-by-step):" ++ [nl]
                     ++ sentence 599 ++ [nl]))
                (create_langchain_docs_from_article two_long_steps_article)).
  { vm_compute. left. reflexivity. }
  split; [exact H|].
  apply (steps_chunk_bound two_long_steps_article 600); [|exact H|reflexivity].
  repeat constructor; discriminate.
Defined.

(** An article without FAQ pairs, steps and sections, whose full text
    has fewer than 50 characters and whose notes all have fewer than 50
    characters, gives no chunk at all. *)
Theorem unstructured_short_article_gives_no_chunk (a : Article) :
  faq_pairs a = [] -> steps a = [] -> sections a = [] ->
  len (full_text a) < 50 ->
  Forall (fun n => len n < MIN_CHUNK_SIZE) (notes a) ->
  create_langchain_docs_from_article a = [].
Proof.
  intros Hf Hs Hc Hlen Hn.
  rewrite create_items, (note_items_short a _ Hn).
  unfold fallback_items, text_items. rewrite structured_docs_items.
  unfold steps_items. rewrite Hf, Hs, Hc. cbn [flat_map app].
  rewrite chunk_by_sentences_short by exact Hlen. reflexivity.
Qed.

Lemma unstructured_short_article_gives_no_chunk_witness :
  create_langchain_docs_from_article short_text_article = [].
Proof.
  apply (unstructured_short_article_gives_no_chunk short_text_article);
    try reflexivity. constructor.
Defined.

(** Every chunk carries the keys "url", "title", "category", "chunk_type"
    and "source" in its metadata; a [faq] chunk carries "question" as
    well, a [section] chunk "section_heading" as well, and no chunk
    carries any other key. *)
Theorem chunk_metadata_keys (a : Article) (d : Document) :
  In d (create_langchain_docs_from_article a) ->
  (chunk_type d = Some (lit "faq")
   /\ dom (metadata d)
      = list_to_set ["url"; "title"; "category"; "chunk_type"; "source";
                     "question"]%string)
  \/ (chunk_type d = Some (lit "section")
      /\ dom (metadata d)
         = list_to_set ["url"; "title"; "category"; "chunk_type"; "source";
                        "section_heading"]%string)
  \/ ((chunk_type d = Some (lit "steps") \/ chunk_type d = Some (lit "text")
       \/ chunk_type d = Some (lit "note"))
      /\ dom (metadata d)
         = list_to_set ["url"; "title"; "category"; "chunk_type";
                        "source"]%string).
Proof.
  intros H. apply in_structured_docs in H.
  destruct H as [[p ->]|[[g [[<-|[]] _]]|[[h [b ->]]|[[b ->]|[n ->]]]]].
  - left. split; reflexivity.
  - right; right. split; [left|]; reflexivity.
  - right; left. split; reflexivity.
  - right; right. split; [right; left|]; reflexivity.
  - right; right. split; [right; right|]; reflexivity.
Qed.

Lemma chunk_metadata_keys_witness :
  let d := faq_doc paynow_article (lit "What is PayNow?")
             (lit "PayNow is a funds transfer service.") in
  In d (create_langchain_docs_from_article paynow_article)
  /\ dom (metadata d)
     = list_to_set ["url"; "title"; "category"; "chunk_type"; "source";
                    "question"]%string.
Proof.
  split; [left; reflexivity|].
  destruct (chunk_metadata_keys paynow_article
              (faq_doc paynow_article (lit "What is PayNow?")
                 (lit "PayNow is a funds transfer service."))
              ltac:(left; reflexivity)) as [[_ H]|[[H _]|[[H|[H|H]] _]]];
    [exact H| | | |]; discriminate H.
Defined.

(** ** Counting by key *)

Section Tally.

Context {A : Type} (key : A -> str).

Lemma tally_cons (k : str) (x : A) (l : list A) :
  tally key k (x :: l) = (if bool_decide (key x = k) then 1 else 0) + tally key k l.
Proof.
  unfold tally. cbn [List.filter]. destruct (bool_decide _); cbn [length]; lia.
Qed.

Lemma tally_nonneg (k : str) (l : list A) : 0 <= tally key k l.
Proof. unfold tally. lia. Qed.

(** The loop [for x in l: d[key(x)] = d.get(key(x), 0) + 1] adds to each
    entry the number of elements with that key, and creates no entry for
    a key that does not occur. *)
Lemma incr_loop_lookup (l : list A) (d : gmap str Z) (k : str) :
  fold_left (fun d x => incr d (key x)) l d !! k
  = if tally key k l =? 0 then d !! k
    else Some (default 0 (d !! k) + tally key k l).
Proof.
  revert d. induction l as [|x l IH]; intros d; [reflexivity|].
  cbn [fold_left]. rewrite IH, tally_cons. unfold incr.
  pose proof (tally_nonneg k l) as Hn.
  destruct (bool_decide (key x = k)) eqn:E.
  - apply bool_decide_eq_true_1 in E. rewrite E, lookup_insert_eq.
    cbn [default]. destruct (Z.eqb_spec (tally key k l) 0) as [H0|H0].
    + rewrite H0. destruct (Z.eqb_spec (1 + 0) 0); [lia|].
      apply (f_equal Some). unfold id. lia.
    + destruct (Z.eqb_spec (1 + tally key k l) 0); [lia|].
      apply (f_equal Some). unfold id. lia.
  - apply bool_decide_eq_false_1 in E. rewrite lookup_insert_ne by exact E.
    rewrite Z.add_0_l. reflexivity.
Qed.

End Tally.

(** ** [ingest]: the chunk type distribution *)

Section Ingest.

Lemma created_chunk_type (a : Article) (d : Document) :
  In d (create_langchain_docs_from_article a) ->
  chunk_type d = Some (lit "faq") \/ chunk_type d = Some (lit "steps")
  \/ chunk_type d = Some (lit "section") \/ chunk_type d = Some (lit "text")
  \/ chunk_type d = Some (lit "note").
Proof.
  intros H. apply in_structured_docs in H.
  destruct H as [[p ->]|[[g [[<-|[]] _]]|[[h [b ->]]|[[b ->]|[n ->]]]]];
    auto 6.
Qed.

Lemma all_docs_flat (articles : list Article) :
  all_docs articles = flat_map create_langchain_docs_from_article articles.
Proof.
  unfold all_docs.
  exact (fold_left_append create_langchain_docs_from_article articles []).
Qed.

Lemma all_docs_chunk_type (articles : list Article) (d : Document) :
  In d (all_docs articles) ->
  chunk_type d = Some (lit "faq") \/ chunk_type d = Some (lit "steps")
  \/ chunk_type d = Some (lit "section") \/ chunk_type d = Some (lit "text")
  \/ chunk_type d = Some (lit "note").
Proof.
  rewrite all_docs_flat, in_flat_map. intros [a [_ H]].
  exact (created_chunk_type a d H).
Qed.

Lemma tally_has_type (t : string) (docs : list Document) :
  (forall d, In d docs -> exists x, chunk_type d = Some x) ->
  tally chunk_type_or_unknown (lit t) docs
  = Z.of_nat (length (List.filter (has_type t) docs)).
Proof.
  intros H. unfold tally. do 2 f_equal. apply List.filter_ext_in.
  intros d Hd. destruct (H d Hd) as [x Hx].
  unfold has_type, chunk_type_or_unknown. unfold chunk_type in Hx |- *.
  rewrite Hx. cbn [default]. unfold id.
  destruct (bool_decide (x = lit t)) eqn:E.
  - apply bool_decide_eq_true_1 in E. subst x. symmetry. apply bool_decide_true.
    reflexivity.
  - apply bool_decide_eq_false_1 in E. symmetry. apply bool_decide_false.
    congruence.
Qed.

Lemma five_types_partition (docs : list Document) :
  (forall d, In d docs ->
     chunk_type d = Some (lit "faq") \/ chunk_type d = Some (lit "steps")
     \/ chunk_type d = Some (lit "section") \/ chunk_type d = Some (lit "text")
     \/ chunk_type d = Some (lit "note")) ->
  (length (List.filter (has_type "faq") docs)
   + length (List.filter (has_type "steps") docs)
   + length (List.filter (has_type "section") docs)
   + length (List.filter (has_type "text") docs)
   + length (List.filter (has_type "note") docs) = length docs)%nat.
Proof.
  induction docs as [|d docs IH]; intros H; [reflexivity|].
  specialize (IH (fun d' H' => H d' (or_intror H'))).
  cbn [List.filter].
  destruct (H d (or_introl eq_refl)) as [E|[E|[E|[E|E]]]];
    repeat match goal with
      | |- context [has_type ?t d] =>
          let Ht := fresh "Ht" in
          destruct (has_type t d) eqn:Ht;
          unfold has_type in Ht; rewrite E in Ht; vm_compute in Ht;
          first [discriminate Ht | clear Ht]
      end;
    cbn [length]; lia.
Qed.

(** The distribution logged by [ingest] counts every chunk once under its
    type: the entry of a type is the number of chunks of that type and
    is absent when there is none, the key "unknown" never appears, and
    the counts of the five types add up to the number of chunks. *)
Theorem type_counts_of_chunks (articles : list Article) :
  let docs := all_docs articles in
  let count t := Z.of_nat (length (List.filter (has_type t) docs)) in
  (forall t : string,
     type_counts docs !! lit t
     = if count t =? 0 then None else Some (count t))
  /\ type_counts docs !! lit "unknown" = None
  /\ count "faq" + count "steps" + count "section" + count "text"
     + count "note" = Z.of_nat (length docs).
Proof.
  intros docs count.
  assert (Hsome : forall d, In d docs -> exists x, chunk_type d = Some x).
  { intros d Hd. destruct (all_docs_chunk_type articles d Hd)
      as [E|[E|[E|[E|E]]]]; eauto. }
  assert (Hlookup : forall t : string,
            type_counts docs !! lit t
            = if count t =? 0 then None else Some (count t)).
  { intros t. unfold type_counts. rewrite incr_loop_lookup.
    rewrite (tally_has_type t docs Hsome). fold (count t).
    destruct (count t =? 0); [reflexivity|]. rewrite lookup_empty.
    reflexivity. }
  split; [exact Hlookup|]. split.
  - rewrite Hlookup.
    assert (H0 : count "unknown"%string = 0).
    { subst count. cbv beta. rewrite (filter_typed_other "unknown"); [reflexivity|].
      apply List.Forall_forall. intros d Hd.
      destruct (all_docs_chunk_type articles d Hd) as [E|[E|[E|[E|E]]]];
        rewrite E; discriminate. }
    rewrite H0. reflexivity.
  - subst count. cbv beta.
    pose proof (five_types_partition docs (all_docs_chunk_type articles)). lia.
Qed.

End Ingest.

(** ** [scrape_all]: the URLs to visit *)

Section AllUrls.

Lemma has_key_In (d : list (str * str)) (k : str) :
  has_key d k = true <-> In k (map fst d).
Proof.
  unfold has_key. rewrite existsb_exists, in_map_iff. split.
  - intros [item [Hin Hk]]. apply bool_decide_eq_true_1 in Hk. eauto.
  - intros [item [Hk Hin]]. exists item. split; [exact Hin|].
    apply bool_decide_true, Hk.
Qed.

Lemma add_url_keeps (c : str) (acc : list (str * str)) (p : str)
    (item : str * str) :
  In item acc -> In item (add_url c acc p).
Proof.
  intros H. unfold add_url. destruct (negb _); [|exact H].
  apply in_app_iff. left. exact H.
Qed.

Lemma add_url_NoDup (c : str) (acc : list (str * str)) (p : str) :
  NoDup (map fst acc) -> NoDup (map fst (add_url c acc p)).
Proof.
  intros H. unfold add_url. destruct (has_key acc (BASE_URL ++ p)) eqn:E;
    cbn [negb]; [exact H|].
  rewrite map_app. cbn [map fst]. apply NoDup_app. split; [exact H|].
  split; [|apply NoDup_singleton].
  intros k Hk Hk'. apply list_elem_of_In in Hk, Hk'.
  destruct Hk' as [<-|[]]. apply has_key_In in Hk. congruence.
Qed.

Lemma add_url_key (c : str) (acc : list (str * str)) (p : str) :
  In (BASE_URL ++ p) (map fst (add_url c acc p)).
Proof.
  unfold add_url. destruct (has_key acc (BASE_URL ++ p)) eqn:E; cbn [negb].
  - apply has_key_In, E.
  - rewrite map_app, in_app_iff. right. left. reflexivity.
Qed.

Lemma add_url_origin (c : str) (acc : list (str * str)) (p : str)
    (item : str * str) :
  In item (add_url c acc p) -> In item acc \/ item = (BASE_URL ++ p, c).
Proof.
  unfold add_url. destruct (negb _); [|tauto].
  rewrite in_app_iff. intros [H|[<-|[]]]; tauto.
Qed.

Lemma inner_keeps (c : str) (urls : list str) (acc : list (str * str))
    (item : str * str) :
  In item acc -> In item (fold_left (add_url c) urls acc).
Proof.
  revert acc. induction urls as [|q urls IH]; intros acc H; [exact H|].
  cbn [fold_left]. apply IH, add_url_keeps, H.
Qed.

Lemma inner_NoDup (c : str) (urls : list str) (acc : list (str * str)) :
  NoDup (map fst acc) -> NoDup (map fst (fold_left (add_url c) urls acc)).
Proof.
  revert acc. induction urls as [|q urls IH]; intros acc H; [exact H|].
  cbn [fold_left]. apply IH, add_url_NoDup, H.
Qed.

Lemma inner_key (c : str) (urls : list str) (acc : list (str * str)) (p : str) :
  In p urls -> In (BASE_URL ++ p) (map fst (fold_left (add_url c) urls acc)).
Proof.
  revert acc. induction urls as [|q urls IH]; intros acc H; [destruct H|].
  cbn [fold_left]. destruct H as [->|H]; [|apply IH, H].
  pose proof (add_url_key c acc p) as Hk. apply in_map_iff in Hk.
  destruct Hk as [item [Hf Hin]]. apply in_map_iff. exists item.
  split; [exact Hf|]. apply inner_keeps, Hin.
Qed.

Lemma inner_origin (c : str) (urls : list str) (acc : list (str * str))
    (item : str * str) :
  In item (fold_left (add_url c) urls acc) ->
  In item acc \/ exists p, In p urls /\ item = (BASE_URL ++ p, c).
Proof.
  revert acc. induction urls as [|q urls IH]; intros acc H; [tauto|].
  cbn [fold_left] in H. destruct (IH _ H) as [H'|[p [Hp ->]]].
  - destruct (add_url_origin c acc q item H') as [H'' | ->]; [tauto|].
    right. exists q. split; [left|]; reflexivity.
  - right. exists p. split; [right; exact Hp|reflexivity].
Qed.

(** The first listing of a page decides its category. *)
Lemma inner_first (c : str) (urls : list str) (acc : list (str * str))
    (p : str) :
  ~ In (BASE_URL ++ p) (map fst acc) -> In p urls ->
  In (BASE_URL ++ p, c) (fold_left (add_url c) urls acc).
Proof.
  revert acc. induction urls as [|q urls IH]; intros acc Hk H; [destruct H|].
  cbn [fold_left].
  destruct (decide (q = p)) as [->|Hne].
  - apply inner_keeps. unfold add_url.
    destruct (has_key acc (BASE_URL ++ p)) eqn:E.
    + apply has_key_In in E. contradiction.
    + cbn [negb]. apply in_app_iff. right. left. reflexivity.
  - destruct H as [H|H]; [contradiction|]. apply IH; [|exact H].
    intros Hin. apply in_map_iff in Hin. destruct Hin as [item [Hf Hin]].
    destruct (add_url_origin c acc q item Hin) as [H' | ->].
    + apply Hk, in_map_iff. eauto.
    + cbn [fst] in Hf. apply app_inv_head in Hf. contradiction.
Qed.

Lemma outer_keeps (articles : list (str * list str)) (acc : list (str * str))
    (item : str * str) :
  In item acc ->
  In item (fold_left
             (fun all_urls (entry : str * list str) =>
                fold_left (add_url (fst entry)) (snd entry) all_urls)
             articles acc).
Proof.
  revert acc. induction articles as [|e articles IH]; intros acc H; [exact H|].
  cbn [fold_left]. apply IH, inner_keeps, H.
Qed.

Lemma outer_origin (articles : list (str * list str)) (acc : list (str * str))
    (item : str * str) :
  In item (fold_left
             (fun all_urls (entry : str * list str) =>
                fold_left (add_url (fst entry)) (snd entry) all_urls)
             articles acc) ->
  In item acc
  \/ exists c urls p,
       In (c, urls) articles /\ In p urls /\ item = (BASE_URL ++ p, c).
Proof.
  revert acc. induction articles as [|[c urls] articles IH]; intros acc H;
    [tauto|].
  cbn [fold_left fst snd] in H. destruct (IH _ H) as [H'|[c' [urls' [p [H1 [H2 ->]]]]]].
  - destruct (inner_origin c urls acc item H') as [H''|[p [Hp ->]]]; [tauto|].
    right. exists c, urls, p. split; [left; reflexivity|tauto].
  - right. exists c', urls', p. split; [right; exact H1|tauto].
Qed.

Lemma outer_NoDup (articles : list (str * list str)) (acc : list (str * str)) :
  NoDup (map fst acc) ->
  NoDup (map fst (fold_left
                    (fun all_urls (entry : str * list str) =>
                       fold_left (add_url (fst entry)) (snd entry) all_urls)
                    articles acc)).
Proof.
  revert acc. induction articles as [|e articles IH]; intros acc H; [exact H|].
  cbn [fold_left]. apply IH, inner_NoDup, H.
Qed.

Lemma outer_key (articles : list (str * list str)) (acc : list (str * str))
    (c : str) (urls : list str) (p : str) :
  In (c, urls) articles -> In p urls ->
  In (BASE_URL ++ p)
    (map fst (fold_left
                (fun all_urls (entry : str * list str) =>
                   fold_left (add_url (fst entry)) (snd entry) all_urls)
                articles acc)).
Proof.
  intros Hin Hp. revert acc.
  induction articles as [|e articles IH]; intros acc; [destruct Hin|].
  cbn [fold_left]. destruct Hin as [->|Hin]; [|apply IH, Hin].
  cbn [fst snd].
  pose proof (inner_key c urls acc p Hp) as Hk. apply in_map_iff in Hk.
  destruct Hk as [item [Hf Hi]]. apply in_map_iff. exists item.
  split; [exact Hf|]. apply outer_keeps, Hi.
Qed.

(** [all_urls] holds every listed page once: its keys are distinct, every
    listed page is a key, every item comes from the table, and a page
    listed under several categories keeps the first one. *)
Theorem all_urls_unique_first_wins (articles : list (str * list str)) :
  NoDup (map fst (all_urls articles))
  /\ (forall c urls p,
        In (c, urls) articles -> In p urls ->
        In (BASE_URL ++ p) (map fst (all_urls articles)))
  /\ (forall u c,
        In (u, c) (all_urls articles) ->
        exists urls p, In (c, urls) articles /\ In p urls /\ u = BASE_URL ++ p)
  /\ (forall l1 c urls l2 p,
        articles = l1 ++ (c, urls) :: l2 -> In p urls ->
        (forall c' urls', In (c', urls') l1 -> ~ In p urls') ->
        In (BASE_URL ++ p, c) (all_urls articles)).
Proof.
  unfold all_urls. split; [|split; [|split]].
  - apply outer_NoDup. constructor.
  - intros c urls p Hin Hp. exact (outer_key articles [] c urls p Hin Hp).
  - intros u c H. destruct (outer_origin articles [] (u, c) H)
      as [[]|[c' [urls [p [H1 [H2 E]]]]]].
    injection E as -> ->. eauto.
  - intros l1 c urls l2 p -> Hp Hfirst. rewrite fold_left_app.
    cbn [fold_left fst snd]. apply outer_keeps, inner_first; [|exact Hp].
    intros Hin. apply in_map_iff in Hin. destruct Hin as [[u c0] [Hf Hin]].
    cbn [fst] in Hf. subst u.
    destruct (outer_origin l1 [] _ Hin) as [[]|[c' [urls' [q [H1 [H2 E]]]]]].
    assert (E' : BASE_URL ++ p = BASE_URL ++ q) by congruence.
    apply app_inv_head in E'. subst q.
    exact (Hfirst c' urls' H1 H2).
Qed.

Lemma all_urls_unique_first_wins_witness :
  In (BASE_URL ++ lit "a.html", lit "Bank")
    (all_urls [(lit "Bank", [lit "a.html"; lit "b.html"]);
               (lit "Cards", [lit "a.html"])]).
Proof.
  apply (proj2 (proj2 (proj2 (all_urls_unique_first_wins
            [(lit "Bank", [lit "a.html"; lit "b.html"]);
             (lit "Cards", [lit "a.html"])])))
           [] (lit "Bank") [lit "a.html"; lit "b.html"]
           [(lit "Cards", [lit "a.html"])] (lit "a.html")).
  - reflexivity.
  - left. reflexivity.
  - intros c' urls' [].
Defined.

End AllUrls.

(** ** [scrape_all]: the loop and the statistics *)

Section Scrape.

Variable fetch : str -> Fetched.

Lemma scrape_step_view (results : list Article) (failed : list Failure)
    (item : str * str) :
  scrape_step fetch (results, failed) item
  = (results ++ scraped_page fetch item, failed ++ scrape_failure fetch item).
Proof.
  unfold scrape_step, scraped_page, scrape_failure. destruct item as [u c].
  cbn [fst snd]. destruct (fetch u) as [e|ct soup now].
  - rewrite app_nil_r. reflexivity.
  - destruct (contains _ ct); cbn [negb]; rewrite !app_nil_r; reflexivity.
Qed.

Lemma scrape_loop_view (items : list (str * str)) (results : list Article)
    (failed : list Failure) :
  fold_left (scrape_step fetch) items (results, failed)
  = (results ++ flat_map (scraped_page fetch) items,
     failed ++ flat_map (scrape_failure fetch) items).
Proof.
  revert results failed.
  induction items as [|item items IH]; intros results failed.
  - cbn [fold_left flat_map]. rewrite !app_nil_r. reflexivity.
  - cbn [fold_left flat_map]. rewrite scrape_step_view, IH, <- !app_assoc.
    reflexivity.
Qed.

Lemma scraped_page_url (item : str * str) (r : Article) :
  In r (scraped_page fetch item) -> url r = fst item.
Proof.
  unfold scraped_page. destruct (fetch (fst item)) as [e|ct soup now];
    [intros []|].
  destruct (contains _ ct); [|intros []]. intros [<-|[]]. reflexivity.
Qed.

Lemma scraped_pages_urls (items : list (str * str)) (u : str) :
  In u (map url (flat_map (scraped_page fetch) items)) -> In u (map fst items).
Proof.
  rewrite !in_map_iff. intros [r [<- Hr]]. apply in_flat_map in Hr.
  destruct Hr as [item [Hi Hr]]. exists item.
  split; [symmetry; apply scraped_page_url, Hr|exact Hi].
Qed.

Lemma scraped_pages_NoDup (items : list (str * str)) :
  NoDup (map fst items) ->
  NoDup (map url (flat_map (scraped_page fetch) items)).
Proof.
  induction items as [|item items IH]; intros H; [constructor|].
  cbn [map] in H. apply NoDup_cons in H. destruct H as [Hnew H].
  cbn [flat_map]. rewrite map_app.
  assert (Hone : scraped_page fetch item = []
                 \/ exists r, scraped_page fetch item = [r] /\ url r = fst item).
  { pose proof (scraped_page_url item) as Hu. unfold scraped_page in *.
    destruct (fetch (fst item)) as [e|ct soup now]; [tauto|].
    destruct (contains _ ct); [|tauto]. right. eexists. split; [reflexivity|].
    apply Hu. left. reflexivity. }
  destruct Hone as [->|[r [-> Hr]]]; [exact (IH H)|].
  cbn [map app]. apply NoDup_cons. split; [|exact (IH H)].
  intros Hin. apply list_elem_of_In, scraped_pages_urls in Hin.
  apply Hnew, list_elem_of_In. rewrite <- Hr. exact Hin.
Qed.

Lemma scrape_lengths (items : list (str * str)) :
  (length (flat_map (scraped_page fetch) items)
   + length (flat_map (scrape_failure fetch) items)
   + length (skipped fetch items) = length items)%nat.
Proof.
  unfold skipped. induction items as [|item items IH]; [reflexivity|].
  cbn [flat_map]. rewrite !length_app. cbn [length].
  unfold scraped_page at 1, scrape_failure at 1.
  destruct (fetch (fst item)) as [e|ct soup now];
    [|destruct (contains _ ct)]; cbn [length]; lia.
Qed.

End Scrape.

(** The URL is a key of the scraped corpus: no two records of [results]
    have the same URL. *)
Theorem scraped_urls_unique (fetch : str -> Fetched)
    (articles : list (str * list str)) :
  NoDup (map url (fst (scrape fetch articles))).
Proof.
  unfold scrape. rewrite scrape_loop_view. cbn [fst app].
  apply scraped_pages_NoDup, outer_NoDup. constructor.
Qed.

(** Every URL to visit is accounted for once: it gives a record, or a
    failure, or is skipped for not being HTML.  The records are the pages
    extracted from the HTML responses, under the URL and category of
    [all_urls]; the failures are the requests that raised. *)
Theorem scrape_accounts_for_every_url (fetch : str -> Fetched)
    (articles : list (str * list str)) :
  let results := fst (scrape fetch articles) in
  let failed := snd (scrape fetch articles) in
  (length results + length failed + length (skipped fetch (all_urls articles))
   = length (all_urls articles))%nat
  /\ (forall r,
        In r results <->
        exists u c ct soup now,
          In (u, c) (all_urls articles)
          /\ fetch u = Response ct soup now
          /\ contains (lit "text/html") ct = true
          /\ r = extract_page_content soup u c now)
  /\ (forall f,
        In f failed <->
        exists u c e,
          In (u, c) (all_urls articles)
          /\ fetch u = RequestError e
          /\ f = {| failed_url := u; failed_category := c;
                    failed_error := e |}).
Proof.
  intros results failed. subst results failed. unfold scrape.
  rewrite scrape_loop_view. cbn [fst snd app].
  split; [apply scrape_lengths|]. split.
  - intros r. rewrite in_flat_map. split.
    + intros [[u c] [Hi Hr]]. unfold scraped_page in Hr. cbn [fst snd] in Hr.
      destruct (fetch u) as [e|ct soup now] eqn:Ef; [destruct Hr|].
      destruct (contains _ ct) eqn:Ec; [|destruct Hr].
      destruct Hr as [<-|[]]. exists u, c, ct, soup, now. tauto.
    + intros [u [c [ct [soup [now [Hi [Ef [Ec ->]]]]]]]].
      exists (u, c). split; [exact Hi|]. unfold scraped_page. cbn [fst snd].
      rewrite Ef, Ec. left. reflexivity.
  - intros f. rewrite in_flat_map. split.
    + intros [[u c] [Hi Hf]]. unfold scrape_failure in Hf. cbn [fst snd] in Hf.
      destruct (fetch u) as [e|ct soup now] eqn:Ef; [|destruct Hf].
      destruct Hf as [<-|[]]. exists u, c, e. tauto.
    + intros [u [c [e [Hi [Ef ->]]]]].
      exists (u, c). split; [exact Hi|]. unfold scrape_failure. cbn [fst snd].
      rewrite Ef. left. reflexivity.
Qed.

(** The statistics count every record once under its category: the entry
    of a category is the number of records of that category, and there
    is no entry for a category without record. *)
Theorem scrape_stats_categories (results : list Article)
    (failed : list Failure) (now c : str) :
  categories (scrape_stats results failed now) !! c
  = if tally category c results =? 0 then None
    else Some (tally category c results).
Proof.
  unfold scrape_stats. cbn [categories]. rewrite incr_loop_lookup.
  destruct (_ =? 0); [reflexivity|]. rewrite lookup_empty. reflexivity.
Qed.

Lemma scrape_accounts_for_every_url_witness :
  let fetch := fun _ : str =>
    Response (lit "text/html; charset=utf-8") small_page
      (lit "2024-01-01T00:00:00") in
  let table := [(lit "Banking - PayNow", [lit "bank-paynow.html"])] in
  In (extract_page_content small_page (BASE_URL ++ lit "bank-paynow.html")
        (lit "Banking - PayNow") (lit "2024-01-01T00:00:00"))
    (fst (scrape fetch table)).
Proof.
  intros fetch table.
  apply (proj1 (proj2 (scrape_accounts_for_every_url fetch table))).
  exists (BASE_URL ++ lit "bank-paynow.html"), (lit "Banking - PayNow"),
    (lit "text/html; charset=utf-8"), small_page, (lit "2024-01-01T00:00:00").
  split; [left; reflexivity|]. repeat split; reflexivity.
Defined.

(** ** The extractor: what the stored fields look like *)

Section ExtractorShape.

Variable soup : Soup.

Lemma extract_steps_long :
  Forall (fun s => len s > 5) (extract_steps soup).
Proof.
  unfold extract_steps. apply fold_left_invariant; [constructor|].
  intros acc raw Hacc. destruct (truthy _ && _) eqn:E; [|exact Hacc].
  apply andb_true_iff in E. destruct E as [_ E]. apply Z.gtb_lt in E.
  apply Forall_app. split; [exact Hacc|]. constructor; [lia|constructor].
Qed.

Lemma extract_notes_long :
  Forall (fun s => len s > 10) (extract_notes soup).
Proof.
  unfold extract_notes. apply fold_left_invariant; [constructor|].
  intros acc raw Hacc. destruct (truthy _ && _) eqn:E; [|exact Hacc].
  apply andb_true_iff in E. destruct E as [_ E]. apply Z.gtb_lt in E.
  apply Forall_app. split; [exact Hacc|]. constructor; [lia|constructor].
Qed.

Lemma py_slice_to_len (j : Z) (s : str) : 0 <= j -> len (py_slice_to j s) <= j.
Proof.
  intros Hj. unfold py_slice_to, len.
  destruct (Z.ltb_spec j 0); [lia|]. rewrite length_take. lia.
Qed.

Lemma answer_walk_leading (siblings : list Sibling) (acc : list str) :
  (length acc < 5)%nat ->
  exists k : nat,
    (length acc + k <= 5)%nat
    /\ answer_walk acc siblings
       = acc ++ map (fun s => clean_text (text s)) (take k siblings)
    /\ Forall (fun s =>
                 name_in ["h1"; "h2"; "h3"; "h4"]%string s = false
                 /\ clean_text (text s) <> []
                 /\ question_like (clean_text (text s)) = false)
         (take k siblings).
Proof.
  revert acc. induction siblings as [|s rest IH]; intros acc Hacc.
  - exists 0%nat. cbn [answer_walk take map]. rewrite app_nil_r.
    split; [lia|]. split; [reflexivity|constructor].
  - cbn [answer_walk].
    assert (Hstop : exists k : nat,
              (length acc + k <= 5)%nat
              /\ acc = acc ++ map (fun s => clean_text (text s)) (take k (s :: rest))
              /\ Forall (fun s =>
                           name_in ["h1"; "h2"; "h3"; "h4"]%string s = false
                           /\ clean_text (text s) <> []
                           /\ question_like (clean_text (text s)) = false)
                   (take k (s :: rest))).
    { exists 0%nat. cbn [take map]. rewrite app_nil_r.
      split; [lia|]. split; [reflexivity|constructor]. }
    destruct (name_in _ s) eqn:En; [exact Hstop|].
    destruct (truthy (clean_text (text s))) eqn:Et; cbn [negb]; [|exact Hstop].
    destruct (question_like _) eqn:Eq; [exact Hstop|]. clear Hstop.
    apply truthy_true in Et.
    destruct (_ >=? 5) eqn:E5.
    + exists 1%nat. cbn [take map]. rewrite length_app in E5. cbn [length] in E5.
      split; [lia|]. split; [reflexivity|]. repeat constructor; assumption.
    + rewrite length_app in E5. cbn [length] in E5.
      destruct (Z.geb_spec (Z.of_nat (length acc + 1)) 5) as [|E5']; [discriminate|].
      destruct (IH (acc ++ [clean_text (text s)])) as [k [H1 [H2 H3]]].
      { rewrite length_app. cbn [length]. lia. }
      exists (S k). rewrite length_app in H1. cbn [length] in H1.
      split; [lia|]. split.
      * rewrite H2. cbn [take map]. rewrite <- app_assoc. reflexivity.
      * cbn [take]. constructor; [tauto|exact H3].
Qed.

Lemma extract_faq_pairs_shape :
  Forall (fun p => question_like (question p) = true /\ answer p <> [])
    (extract_faq_pairs soup).
Proof.
  unfold extract_faq_pairs. apply fold_left_invariant; [constructor|].
  intros acc el Hacc. destruct (question_like _) eqn:Eq; [|exact Hacc].
  pose proof (answer_walk_parts (snd el) [] ltac:(constructor)) as Hw.
  destruct (answer_walk [] (snd el)) as [|x parts]; [exact Hacc|].
  apply Forall_app. split; [exact Hacc|].
  constructor; [|constructor]. cbn [question answer].
  split; [exact Eq|].
  apply (proj2 (join_sp_normalized (x :: parts) Hw)). discriminate.
Qed.

Lemma join_head_len (sep x : str) (rest : list str) :
  len x <= len (join sep (x :: rest)).
Proof.
  destruct rest as [|y rest]; [cbn [join]; lia|].
  change (join sep (x :: y :: rest)) with (x ++ sep ++ join sep (y :: rest)).
  rewrite !len_app. pose proof (len_nonneg sep).
  pose proof (len_nonneg (join sep (y :: rest))). lia.
Qed.

Lemma content_walk_long (siblings : list Sibling) (content_parts : list str) :
  Forall (fun p => len p > 3) content_parts ->
  Forall (fun p => len p > 3) (content_walk content_parts siblings).
Proof.
  revert content_parts.
  induction siblings as [|sibling rest IH]; intros parts Hparts;
    cbn [content_walk]; [exact Hparts|].
  destruct (name_in _ sibling); [exact Hparts|].
  destruct (truthy _ && _) eqn:E; [|apply IH, Hparts].
  apply andb_true_iff in E. destruct E as [_ E]. apply Z.gtb_lt in E.
  apply IH, Forall_app. split; [exact Hparts|].
  constructor; [lia|constructor].
Qed.

Lemma extract_sections_shape :
  Forall (fun s => heading s <> []
                   /\ ~ In (heading s) boilerplate_headings
                   /\ len (content s) > 3)
    (extract_sections soup).
Proof.
  unfold extract_sections. apply fold_left_invariant; [constructor|].
  intros acc el Hacc. destruct (negb _ || _) eqn:E; [exact Hacc|].
  apply orb_false_iff in E. destruct E as [E1 E2].
  apply negb_false_iff, truthy_true in E1.
  apply bool_decide_eq_false_1 in E2.
  pose proof (content_walk_long (snd el) [] ltac:(constructor)) as Hw.
  destruct (content_walk [] (snd el)) as [|x parts]; [exact Hacc|].
  apply Forall_app. split; [exact Hacc|].
  constructor; [|constructor]. cbn [heading content].
  split; [exact E1|]. split.
  - intros Hin. apply E2, list_elem_of_In, Hin.
  - inversion Hw; subst. pose proof (join_head_len [sp] x parts). lia.
Qed.

End ExtractorShape.

(** The record keeps only steps of more than 5 characters and notes of
    more than 10 characters, and its full text has at most 15000
    characters. *)
Theorem extracted_sizes (soup : Soup) (url category now : str) :
  let a := extract_page_content soup url category now in
  Forall (fun s => len s > 5) (steps a)
  /\ Forall (fun n => len n > 10) (notes a)
  /\ len (full_text a) <= 15000.
Proof.
  cbn [extract_page_content steps notes full_text].
  split; [apply extract_steps_long|]. split; [apply extract_notes_long|].
  apply py_slice_to_len. lia.
Qed.

(** The answer to a question is made of the cleaned texts of the first
    [k] elements that follow it, with [k] at most 5: none of them is a
    heading [h1] to [h4], none is empty, none looks like a question. *)
Theorem answer_walk_takes_leading_siblings (siblings : list Sibling) :
  exists k : nat,
    (k <= 5)%nat
    /\ answer_walk [] siblings
       = map (fun s => clean_text (text s)) (take k siblings)
    /\ Forall (fun s =>
                 name_in ["h1"; "h2"; "h3"; "h4"]%string s = false
                 /\ clean_text (text s) <> []
                 /\ question_like (clean_text (text s)) = false)
         (take k siblings).
Proof.
  destruct (answer_walk_leading siblings []) as [k [H1 [H2 H3]]];
    [cbn; lia|].
  exists k. cbn [length] in H1. split; [lia|]. split; assumption.
Qed.

(** Every FAQ pair of the record has a question of more than 10
    characters that ends with a question mark, and an answer that is not
    empty. *)
Theorem extracted_faq_pairs_shape (soup : Soup) (url category now : str) :
  Forall (fun p => endswith_char "?" (question p) = true
                   /\ len (question p) > 10
                   /\ answer p <> [])
    (faq_pairs (extract_page_content soup url category now)).
Proof.
  cbn [extract_page_content faq_pairs].
  eapply List.Forall_impl; [|apply extract_faq_pairs_shape].
  intros p [Hq Ha]. unfold question_like in Hq.
  apply andb_true_iff in Hq. destruct Hq as [H1 H2]. apply Z.gtb_lt in H2.
  split; [exact H1|]. split; [lia|exact Ha].
Qed.

(** Every section of the record has a heading that is not empty and not
    one of the boilerplate headings, and a content of more than 3
    characters. *)
Theorem extracted_sections_shape (soup : Soup) (url category now : str) :
  Forall (fun s => heading s <> []
                   /\ ~ In (heading s)
                          [lit "Popular Articles"; lit "Popular Guides";
                           lit "Popular Article"]
                   /\ len (content s) > 3)
    (sections (extract_page_content soup url category now)).
Proof.
  cbn [extract_page_content sections]. apply extract_sections_shape.
Qed.

Lemma extracted_sections_shape_witness :
  Forall (fun s => heading s <> []
                   /\ ~ In (heading s)
                          [lit "Popular Articles"; lit "Popular Guides";
                           lit "Popular Article"]
                   /\ len (content s) > 3)
    (sections (extract_page_content small_page
                 (lit "https://www.dbs.com.sg/personal/support/bank-paynow.html")
                 (lit "Banking - PayNow") (lit "2024-01-01T00:00:00"))).
Proof.
  exact (extracted_sections_shape small_page
           (lit "https://www.dbs.com.sg/personal/support/bank-paynow.html")
           (lit "Banking - PayNow") (lit "2024-01-01T00:00:00")).
Defined.

(** ** From the extractor to the chunker *)

Section ExtractThenChunk.

Lemma normal_nonblank (s : str) :
  ws_normalized s = true -> s <> [] -> blank s = false /\ strip s = s.
Proof.
  intros Hn Hne. apply ws_normalized_elim in Hn. destruct Hn as [_ [Hl Ht]].
  split; [|apply strip_fixed; assumption].
  destruct s as [|c s]; [congruence|]. cbn [no_leading_ws] in Hl.
  unfold blank. cbn [forallb]. destruct (isspace c); [discriminate|reflexivity].
Qed.

Lemma faq_items_verbatim (a : Article) (l : list FaqPair) :
  Forall (fun p => ws_normalized (question p) = true /\ question p <> []
                   /\ ws_normalized (answer p) = true /\ answer p <> []) l ->
  flat_map (faq_items a) l
  = map (fun p => faq_doc a (question p) (answer p)) l.
Proof.
  induction 1 as [|p l [Hq [Hqn [Ha Han]]] _ IH]; [reflexivity|].
  cbn [flat_map map]. rewrite IH. unfold faq_items.
  destruct (normal_nonblank _ Hq Hqn) as [-> ->].
  destruct (normal_nonblank _ Ha Han) as [-> ->]. reflexivity.
Qed.

Lemma extract_faq_pairs_clean (soup : Soup) :
  Forall (fun p => ws_normalized (question p) = true /\ question p <> []
                   /\ ws_normalized (answer p) = true /\ answer p <> [])
    (extract_faq_pairs soup).
Proof.
  pose proof (extract_faq_pairs_normalized soup) as H1.
  pose proof (extract_faq_pairs_shape soup) as H2.
  rewrite List.Forall_forall in *. intros p Hp.
  destruct (H1 p Hp) as [Hq Ha]. destruct (H2 p Hp) as [Hl Hne].
  split; [exact Hq|]. split; [|tauto].
  unfold question_like in Hl. apply andb_true_iff in Hl.
  destruct Hl as [_ Hl]. apply Z.gtb_lt in Hl.
  intros E. rewrite E in Hl. change (len []) with 0 in Hl. lia.
Qed.

(** Every FAQ pair found by the extractor becomes one [faq] chunk, in
    order, with its question and answer as extracted: none is dropped
    and trimming changes nothing. *)
Theorem extracted_pairs_all_chunked (soup : Soup) (url category now : str) :
  let a := extract_page_content soup url category now in
  List.filter (has_type "faq") (create_langchain_docs_from_article a)
  = map (fun p => faq_doc a (question p) (answer p)) (faq_pairs a).
Proof.
  intros a. rewrite create_items, structured_docs_items.
  filter_by_type. rewrite !app_nil_r.
  apply faq_items_verbatim. subst a. cbn [extract_page_content faq_pairs].
  apply extract_faq_pairs_clean.
Qed.

End ExtractThenChunk.

(** ** Context assembly: composition *)

Section FormatDocs.

Lemma format_docs_join (docs : list Document) :
  format_docs docs
  = join separator
      (map (fun d => lit "[Source: " ++ get (metadata d) "title" ++ lit "]"
                     ++ [nl] ++ page_content d ++ [nl]
                     ++ lit "(URL: " ++ get (metadata d) "url" ++ lit ")")
         docs).
Proof.
  unfold format_docs.
  rewrite (fold_left_append
             (fun d => [lit "[Source: " ++ get (metadata d) "title" ++ lit "]"
                        ++ [nl] ++ page_content d ++ [nl]
                        ++ lit "(URL: " ++ get (metadata d) "url" ++ lit ")"])).
  rewrite flat_map_singleton. reflexivity.
Qed.

Lemma join_cons (sep x : str) (y : str) (rest : list str) :
  join sep (x :: y :: rest) = x ++ sep ++ join sep (y :: rest).
Proof. reflexivity. Qed.

Lemma join_app (sep : str) (l1 l2 : list str) :
  l1 <> [] -> l2 <> [] ->
  join sep (l1 ++ l2) = join sep l1 ++ sep ++ join sep l2.
Proof.
  intros H1 H2. induction l1 as [|x l1 IH]; [congruence|].
  destruct l1 as [|y l1].
  - destruct l2 as [|z l2]; [congruence|]. reflexivity.
  - change ((x :: y :: l1) ++ l2) with (x :: y :: (l1 ++ l2)).
    rewrite !join_cons. change (y :: l1 ++ l2) with ((y :: l1) ++ l2).
    rewrite IH by discriminate. rewrite <- !app_assoc. reflexivity.
Qed.

Lemma join_holds (sep : str) (l : list str) (s : str) :
  In s l -> exists x y, join sep l = x ++ s ++ y.
Proof.
  induction l as [|z l IH]; [intros []|]. intros [->|H].
  - destruct l as [|y l].
    + exists [], []. cbn [join app]. rewrite app_nil_r. reflexivity.
    + exists [], (sep ++ join sep (y :: l)). rewrite join_cons. reflexivity.
  - destruct l as [|y l]; [destruct H|].
    destruct (IH H) as [x [w E]]. exists (z ++ sep ++ x), w.
    rewrite join_cons, E, <- !app_assoc. reflexivity.
Qed.

End FormatDocs.

(** The context of no chunk is the empty string, and the context of two
    batches of chunks, neither empty, is the context of the first, the
    rule, and the context of the second. *)
Theorem format_docs_app (docs1 docs2 : list Document) :
  format_docs [] = []
  /\ (docs1 <> [] -> docs2 <> [] ->
      format_docs (docs1 ++ docs2)
      = format_docs docs1 ++ ([nl; nl] ++ lit "---" ++ [nl; nl])
        ++ format_docs docs2).
Proof.
  split; [reflexivity|]. intros H1 H2.
  rewrite !format_docs_join, map_app. apply join_app.
  - destruct docs1; [congruence|discriminate].
  - destruct docs2; [congruence|discriminate].
Qed.

Lemma format_docs_app_witness :
  let d := faq_doc paynow_article (lit "What is PayNow?")
             (lit "PayNow is a funds transfer service.") in
  format_docs ([d] ++ [d])
  = format_docs [d] ++ ([nl; nl] ++ lit "---" ++ [nl; nl]) ++ format_docs [d].
Proof.
  intros d. apply (proj2 (format_docs_app [d] [d])); discriminate.
Defined.

(** The context holds every retrieved chunk: the rendering of each chunk,
    with its title, its whole content and its URL, occurs in the
    result. *)
Theorem format_docs_holds_every_chunk (docs : list Document) (d : Document) :
  In d docs ->
  exists x y,
    format_docs docs
    = x ++ (lit "[Source: " ++ get (metadata d) "title" ++ lit "]" ++ [nl]
            ++ page_content d ++ [nl]
            ++ lit "(URL: " ++ get (metadata d) "url" ++ lit ")") ++ y.
Proof.
  intros H. rewrite format_docs_join. apply join_holds.
  apply in_map_iff. exists d. split; [reflexivity|exact H].
Qed.

Lemma format_docs_holds_every_chunk_witness :
  let d := faq_doc paynow_article (lit "What is PayNow?")
             (lit "PayNow is a funds transfer service.") in
  exists x y,
    format_docs (create_langchain_docs_from_article paynow_article)
    = x ++ (lit "[Source: " ++ get (metadata d) "title" ++ lit "]" ++ [nl]
            ++ page_content d ++ [nl]
            ++ lit "(URL: " ++ get (metadata d) "url" ++ lit ")") ++ y.
Proof.
  intros d.
  apply (format_docs_holds_every_chunk
           (create_langchain_docs_from_article paynow_article) d).
  left. reflexivity.
Defined.
